(** * Redshift MCP server: routing, SQL mediation and connection lifecycle

    A shallow embedding of [src/redshift_mcp_server/server.py].

    Conventions of the embedding.
    - A Python [str] is a Rocq [string]; one [ascii] stands for one
      character (code points 0..255).
    - The warehouse driver ([redshift_connector]), the process environment
      and the builtin [int] are external: they are the fields of a [World]
      record, and every call into the driver is recorded in a trace of
      [event]s, in call order.
    - Python control flow with exceptions is a small state-and-error monad
      [M]; [try]/[except]/[finally] and [with] are combinators over it.
    - Every exception of the model is a subclass of Python's [Exception],
      so [except Exception] catches all of them. *)

From Stdlib Require Import ZArith String Ascii Bool List Sorted Permutation.
From Stdlib Require Import DecimalString.
From stdpp Require Import gmap strings list sorting.

Local Open Scope Z_scope.
Local Open Scope nat_scope.

(** ** Python strings *)

Module PyStr.

(** The line feed character and the one-character string ["\n"]. *)
Definition LF : ascii := Ascii.ascii_of_nat 10.
Definition nl : string := String LF EmptyString.

(** [s[n:]] *)
Fixpoint slice_from (n : nat) (s : string) : string :=
  match n, s with
  | O, _ => s
  | S n', String _ s' => slice_from n' s'
  | S _, EmptyString => EmptyString
  end.

(** [s.startswith(p)] *)
Definition startswith (s p : string) : bool := String.prefix p s.

(** [s.split(sep)] for a one-character separator: never the empty list. *)
Fixpoint split (sep : ascii) (s : string) : list string :=
  match s with
  | EmptyString => [EmptyString]
  | String c s' =>
      if Ascii.eqb c sep then EmptyString :: split sep s'
      else match split sep s' with
           | [] => [String c EmptyString]
           | p :: ps => String c p :: ps
           end
  end.

(** [sep.join(parts)] on a list of [str]. *)
Definition join (sep : string) (parts : list string) : string :=
  String.concat sep parts.

(** [c in s] for a character [c]. *)
Fixpoint contains (c : ascii) (s : string) : bool :=
  match s with
  | EmptyString => false
  | String d s' => Ascii.eqb d c || contains c s'
  end.

(** [str(n)] for an [int]. *)
Definition of_Z (n : Z) : string := NilZero.string_of_int (Z.to_int n).

End PyStr.

(** ** Regular expressions, as far as [is_valid_identifier] uses them

    The pattern of line 224 is a sequence of anchors, character classes and
    starred character classes.  [re.match] looks for a match that starts at
    the first character and may stop anywhere; without [re.MULTILINE],
    [$] matches at the end of the string and also just before a line feed
    that is the last character of the string. *)

Module Re.

Inductive item : Type :=
| Bol                               (* ^ *)
| Eol                               (* $ *)
| Class (p : ascii -> bool)         (* [...] *)
| Star (p : ascii -> bool).         (* [...]* *)

Definition pattern : Type := list item.

(** Where [$] matches: the remaining text is empty or is one line feed. *)
Definition at_eol (s : string) : bool :=
  match s with
  | EmptyString => true
  | String c EmptyString => Ascii.eqb c PyStr.LF
  | String _ (String _ _) => false
  end.

(** Backtracking matcher: [matches its start s] holds when [its] matches
    a prefix of the remaining text [s]; [start] tells whether [s] is the
    whole subject. *)
Fixpoint matches (its : pattern) (start : bool) (s : string) : bool :=
  match its with
  | [] => true
  | Bol :: r => start && matches r start s
  | Eol :: r => at_eol s && matches r start s
  | Class p :: r =>
      match s with
      | String c s' => p c && matches r false s'
      | EmptyString => false
      end
  | Star p :: r =>
      (fix star (start : bool) (s : string) {struct s} : bool :=
         match s with
         | String c s' => (p c && star false s') || matches r start s
         | EmptyString => matches r start s
         end) start s
  end.

(** [re.match(pattern, s)] is truthy. *)
Definition match_ (its : pattern) (s : string) : bool := matches its true s.

Definition in_range (lo hi c : ascii) : bool :=
  (nat_of_ascii lo <=? nat_of_ascii c) && (nat_of_ascii c <=? nat_of_ascii hi).

End Re.

(** ** Identifier Validator (lines 223-224) *)

(** [[a-zA-Z_]] *)
Definition ident_start (c : ascii) : bool :=
  Re.in_range "a" "z" c || Re.in_range "A" "Z" c || Ascii.eqb c "_".

(** [[a-zA-Z0-9_]] *)
Definition ident_char (c : ascii) : bool :=
  Re.in_range "a" "z" c || Re.in_range "A" "Z" c || Re.in_range "0" "9" c
  || Ascii.eqb c "_".

(** [r'^[a-zA-Z_][a-zA-Z0-9_]*$'] *)
Definition identifier_pattern : Re.pattern :=
  [Re.Bol; Re.Class ident_start; Re.Star ident_char; Re.Eol].

Definition is_valid_identifier (name : string) : bool :=
  Re.match_ identifier_pattern name.

(** The bare identifiers of the specification: the strings made of one
    character of [[A-Za-z_]] followed by characters of [[A-Za-z0-9_]] and
    nothing else.  This definition follows the specification's words. *)
Fixpoint all_ident_chars (s : string) : bool :=
  match s with
  | EmptyString => true
  | String c s' => ident_char c && all_ident_chars s'
  end.

Definition bare_identifier (s : string) : bool :=
  match s with
  | EmptyString => false
  | String c s' => ident_start c && all_ident_chars s'
  end.

(** ** Python values, exceptions and outcomes *)

(** The exceptions that reach the code.  [ValueError] and [RuntimeError]
    are raised by the server, [UnboundLocalError], [IndexError] and
    [TypeError] by the interpreter; [DriverError] is any exception that the
    driver or a builtin raises, with its [str()]. *)
Inductive exn : Type :=
| ValueError (msg : string)
| RuntimeError (msg : string)
| UnboundLocalError (var : string)
| IndexError (msg : string)
| TypeError (msg : string)
| DriverError (msg : string).

(** [str(e)] *)
Definition exn_str (e : exn) : string :=
  match e with
  | ValueError m | RuntimeError m | IndexError m | TypeError m
  | DriverError m => m
  | UnboundLocalError v =>
      "cannot access local variable '" +:+ v
      +:+ "' where it is not associated with a value"
  end.

Inductive outcome (A : Type) : Type :=
| Ret (a : A)
| Raise (e : exn).
Arguments Ret {A} a.
Arguments Raise {A} e.

(** The scalar values of a result row.  [SOther] is a value of any other
    type (float, Decimal, datetime, ...), given by the name of its type,
    its [str()] and its truth value. *)
Inductive scalar : Type :=
| SNone
| SBool (b : bool)
| SInt (n : Z)
| SStr (s : string)
| SOther (tyname repr : string) (truth : bool).

(** [str(v)] *)
Definition py_str (v : scalar) : string :=
  match v with
  | SNone => "None"
  | SBool true => "True"
  | SBool false => "False"
  | SInt n => PyStr.of_Z n
  | SStr s => s
  | SOther _ r _ => r
  end.

(** [bool(v)] *)
Definition truthy (v : scalar) : bool :=
  match v with
  | SNone => false
  | SBool b => b
  | SInt n => negb (Z.eqb n 0)
  | SStr s => negb (String.eqb s "")
  | SOther _ _ t => t
  end.

(** [type(v).__name__] *)
Definition type_name (v : scalar) : string :=
  match v with
  | SNone => "NoneType"
  | SBool _ => "bool"
  | SInt _ => "int"
  | SStr _ => "str"
  | SOther t _ _ => t
  end.

Definition row : Type := list scalar.

(** [mcp.types.TextContent] *)
Record TextContent : Type := { type : string; text : string }.

(** ** The driver and the process, and the trace of driver calls *)

(** What a cursor holds after [execute]: [cursor.description] reduced to
    its column names ([None] when the statement has no result set), and
    what [fetchall] and [fetchone] answer. *)
Record ResultSet : Type := {
  rs_description : option (list string);
  rs_fetchall : outcome (list row);
  rs_fetchone : outcome (option row)
}.

Record World : Type := {
  os_environ : gmap string string;
  (** the builtin [int] on a [str] *)
  py_int : string -> outcome Z;
  (** [redshift_connector.connect(host, port, user, password, database)]:
      [None] when the connection opens *)
  drv_connect : string -> Z -> string -> option string -> string -> option exn;
  (** [conn.autocommit = True] *)
  drv_set_autocommit : option exn;
  (** [conn.cursor()] *)
  drv_cursor : option exn;
  (** [cursor.execute(sql, params)] *)
  drv_execute : string -> list string -> outcome ResultSet;
  (** [cursor.__exit__], which closes the cursor *)
  drv_cursor_close : option exn;
  (** [conn.close()] *)
  drv_close : option exn
}.

Inductive event : Type :=
| EvConnect (opened : bool)
| EvAutocommit
| EvCursor
| EvExecute (sql : string) (params : list string)
| EvFetchall
| EvFetchone
| EvCursorClose
| EvClose.

Global Instance event_eq_dec : EqDecision event.
Proof. solve_decision. Defined.

Inductive Connection : Type := Conn.
Inductive Cursor : Type := Cur.

(** The state of a request: the driver calls made so far and the local
    variable [conn] of the running entry point ([None]: not bound yet). *)
Record Frame : Type := { trace : list event; conn : option Connection }.

Definition start : Frame := {| trace := []; conn := None |}.

(** ** The monad of a request *)

Definition M (A : Type) : Type := Frame -> outcome A * Frame.

Definition ret {A} (a : A) : M A := fun st => (Ret a, st).

Definition raise {A} (e : exn) : M A := fun st => (Raise e, st).

Definition bind {A B} (m : M A) (k : A -> M B) : M B :=
  fun st =>
    match m st with
    | (Ret a, st') => k a st'
    | (Raise e, st') => (Raise e, st')
    end.

Notation "x <- c ;; k" := (bind c (fun x => k))
  (at level 100, c at next level, right associativity).
Notation "c ;; k" := (bind c (fun _ => k))
  (at level 100, right associativity).

Definition emit (ev : event) : M unit :=
  fun st => (Ret tt, {| trace := trace st ++ [ev]; conn := conn st |}).

Definition lift {A} (o : outcome A) : M A := fun st => (o, st).

Definition raise_if (o : option exn) : M unit :=
  match o with
  | None => ret tt
  | Some e => raise e
  end.

(** [conn = ...] and a read of the local [conn]. *)
Definition store_conn (c : Connection) : M unit :=
  fun st => (Ret tt, {| trace := trace st; conn := Some c |}).

Definition load_conn : M Connection :=
  fun st =>
    match conn st with
    | Some c => (Ret c, st)
    | None => (Raise (UnboundLocalError "conn"), st)
    end.

(** A read of a local that is bound on some paths only. *)
Definition load_local {A} (var : string) (v : option A) : M A :=
  match v with
  | Some a => ret a
  | None => raise (UnboundLocalError var)
  end.

(** [try: body / except Exception as e: handler e / finally: final].
    An exception raised by [final] replaces the pending result. *)
Definition try_except_finally {A} (body : M A) (handler : exn -> M A)
    (final : M unit) : M A :=
  fun st =>
    let '(r, st1) :=
      match body st with
      | (Ret a, st') => (Ret a, st')
      | (Raise e, st') => handler e st'
      end in
    match final st1 with
    | (Ret _, st2) => (r, st2)
    | (Raise e, st2) => (Raise e, st2)
    end.

(** [l[i]] *)
Definition getitem {A} (l : list A) (i : nat) : M A :=
  match l !! i with
  | Some x => ret x
  | None => raise (IndexError "list index out of range")
  end.

Fixpoint mapM {A B} (f : A -> M B) (l : list A) : M (list B) :=
  match l with
  | [] => ret []
  | x :: l' => y <- f x ;; ys <- mapM f l' ;; ret (y :: ys)
  end.

(** [try: body / finally: final], which is also what [with] does with a
    context manager whose [__exit__] returns [None]. *)
Definition try_finally {A} (body : M A) (final : M unit) : M A :=
  try_except_finally body raise final.

(** ** Calls into the driver *)

Definition connection_cursor (w : World) (c : Connection) : M Cursor :=
  emit EvCursor ;; raise_if (drv_cursor w) ;; ret Cur.

Definition set_autocommit (w : World) (c : Connection) : M unit :=
  emit EvAutocommit ;; raise_if (drv_set_autocommit w).

Definition connection_close (w : World) (c : Connection) : M unit :=
  emit EvClose ;; raise_if (drv_close w).

Definition cursor_execute (w : World) (cursor : Cursor) (sql : string)
    (params : list string) : M ResultSet :=
  emit (EvExecute sql params) ;; lift (drv_execute w sql params).

Definition cursor_fetchall (rs : ResultSet) : M (list row) :=
  emit EvFetchall ;; lift (rs_fetchall rs).

Definition cursor_fetchone (rs : ResultSet) : M (option row) :=
  emit EvFetchone ;; lift (rs_fetchone rs).

Definition cursor_exit (w : World) (cursor : Cursor) : M unit :=
  emit EvCursorClose ;; raise_if (drv_cursor_close w).

(** [with conn.cursor() as cursor: body] *)
Definition with_cursor {A} (w : World) (c : Connection)
    (body : Cursor -> M A) : M A :=
  cursor <- connection_cursor w c ;;
  try_finally (body cursor) (cursor_exit w cursor).

(** [sep.join(items)] on scalars: a [TypeError] at the first item that is
    not a [str]. *)
Fixpoint str_items (i : nat) (items : list scalar) : outcome (list string) :=
  match items with
  | [] => Ret []
  | SStr s :: items' =>
      match str_items (S i) items' with
      | Ret ss => Ret (s :: ss)
      | Raise e => Raise e
      end
  | v :: _ =>
      Raise (TypeError ("sequence item " +:+ PyStr.of_Z (Z.of_nat i)
                        +:+ ": expected str instance, " +:+ type_name v
                        +:+ " found"))
  end.

Definition join_scalars (sep : string) (items : list scalar) : M scalar :=
  ss <- lift (str_items 0 items) ;; ret (SStr (PyStr.join sep ss)).

(** ** Configuration (lines 21-41) *)

Definition rs_scheme : string := "rs://".

Record Config : Type := {
  cfg_host : string;
  cfg_port : string;
  cfg_user : string;
  cfg_password : option string;
  cfg_database : string;
  cfg_schema : string
}.

Definition get_redshift_config (w : World) : Config :=
  {| cfg_host := default "localhost" (os_environ w !! "RS_HOST");
     cfg_port := default "5439" (os_environ w !! "RS_PORT");
     cfg_user := default "awsuser" (os_environ w !! "RS_USER");
     cfg_password := os_environ w !! "RS_PASSWORD";
     cfg_database := default "dev" (os_environ w !! "RS_DATABASE");
     cfg_schema := default "public" (os_environ w !! "RS_SCHEMA") |}.

(** [redshift_connector.connect(host=..., port=int(config['port']), ...)]:
    the arguments are evaluated first. *)
Definition connect (w : World) (config : Config) : M Connection :=
  p <- lift (py_int w (cfg_port config)) ;;
  match drv_connect w (cfg_host config) p (cfg_user config)
          (cfg_password config) (cfg_database config) with
  | None => emit (EvConnect true) ;; ret Conn
  | Some e => emit (EvConnect false) ;; raise e
  end.

(** ** Catalog helpers (lines 226-276) *)

Definition schemas_sql : string := "
        SELECT nspname AS schema_name
        FROM pg_namespace
        WHERE nspname NOT LIKE 'pg_%'
            AND nspname != 'information_schema'
            AND nspname != 'catalog_history'
        ORDER BY schema_name
   ".

Definition tables_sql : string := "
        SELECT table_name FROM information_schema.tables
        WHERE table_schema = %s
        GROUP BY table_name
        ORDER BY table_name
   ".

(** [[row[0] for row in rows]] *)
Definition first_column (rows : list row) : M (list scalar) :=
  mapM (fun r : row => getitem r 0) rows.

Definition _get_schemas (w : World) (c : Connection) : M scalar :=
  let sql := schemas_sql in
  with_cursor w c (fun cursor =>
    rs <- cursor_execute w cursor sql [] ;;
    rows <- cursor_fetchall rs ;;
    schemas <- first_column rows ;;
    join_scalars PyStr.nl schemas).

Definition _get_tables (w : World) (c : Connection) (schema : string)
    : M scalar :=
  let sql := tables_sql in
  with_cursor w c (fun cursor =>
    rs <- cursor_execute w cursor sql [schema] ;;
    rows <- cursor_fetchall rs ;;
    tables <- first_column rows ;;
    join_scalars PyStr.nl tables).

Definition _get_table_ddl (w : World) (c : Connection) (schema table : string)
    : M scalar :=
  if negb (is_valid_identifier schema) || negb (is_valid_identifier table)
  then raise (ValueError ("Invalid schema or table name: " +:+ schema
                          +:+ "." +:+ table))
  else
    with_cursor w c (fun cursor =>
      let sql := "show table " +:+ schema +:+ "." +:+ table in
      rs <- cursor_execute w cursor sql [] ;;
      ddl <- cursor_fetchone rs ;;
      match ddl with
      | Some (d0 :: _) =>
          if truthy d0 then ret d0
          else ret (SStr ("No DDL found for " +:+ schema +:+ "." +:+ table))
      | Some [] | None =>
          ret (SStr ("No DDL found for " +:+ schema +:+ "." +:+ table))
      end).

Definition _get_table_statistic (w : World) (c : Connection)
    (schema table : string) : M scalar :=
  if negb (is_valid_identifier schema) || negb (is_valid_identifier table)
  then raise (ValueError ("Invalid schema or table name: " +:+ schema
                          +:+ "." +:+ table))
  else
    with_cursor w c (fun cursor =>
      let sql := "ANALYZE " +:+ schema +:+ "." +:+ table +:+ ";" in
      cursor_execute w cursor sql [] ;;
      ret (SStr ("ANALYZE " +:+ schema +:+ "." +:+ table
                 +:+ " command executed"))).

(** ** Resource Router (lines 79-118) *)

(** [len(l) == n and l[i] == s] *)
Definition len_and_item (l : list string) (n i : nat) (s : string) : M bool :=
  if length l =? n then x <- getitem l i ;; ret (String.eqb x s)
  else ret false.

(** The body of the [try] block after the connection is open.  A path
    that matches no branch falls off the end: the function returns
    [None]. *)
Definition dispatch_resource (w : World) (c : Connection)
    (path_parts : list string) : M scalar :=
  p0 <- getitem path_parts 0 ;;
  if String.eqb p0 "schemas" then _get_schemas w c
  else
    is_tables <- len_and_item path_parts 2 1 "tables" ;;
    if is_tables then
      schema <- getitem path_parts 0 ;;
      _get_tables w c schema
    else
      is_ddl <- len_and_item path_parts 3 2 "ddl" ;;
      if is_ddl then
        schema <- getitem path_parts 0 ;;
        table <- getitem path_parts 1 ;;
        _get_table_ddl w c schema table
      else
        is_statistic <- len_and_item path_parts 3 2 "statistic" ;;
        if is_statistic then
          schema <- getitem path_parts 0 ;;
          table <- getitem path_parts 1 ;;
          _get_table_statistic w c schema table
        else ret SNone.

Definition read_resource (w : World) (uri_str : string) : M scalar :=
  let config := get_redshift_config w in
  if negb (PyStr.startswith uri_str rs_scheme)
  then raise (ValueError ("Invalid URI schema: " +:+ uri_str))
  else
    try_except_finally
      (c <- connect w config ;;
       store_conn c ;;
       set_autocommit w c ;;
       let path_parts := PyStr.split "/" (PyStr.slice_from 6 uri_str) in
       dispatch_resource w c path_parts)
      (fun e => raise (RuntimeError ("Redshift Error: " +:+ exn_str e)))
      (c <- load_conn ;; connection_close w c).

(** ** Result Serializer (lines 214-217 of [call_tool]) *)

Definition serialize_result (columns : list string) (rows : list row)
    : string :=
  let result := map (fun r : row => PyStr.join "," (map py_str r)) rows in
  PyStr.join PyStr.nl ([PyStr.join "," columns] ++ result).

(** ** Tool Dispatcher (lines 174-221) *)

(** The locals that lines 180-194 leave behind: [sql] is always bound,
    [schema] and [table] only on the [analyze_table] branch. *)
Record ToolLocals : Type := {
  l_sql : string;
  l_schema : option string;
  l_table : option string
}.

(** Lines 178-194: argument validation and the SQL text.  Argument values
    are strings; [args.get(k)] is [args !! k], and a missing key and the
    empty string are both falsy. *)
Definition resolve_sql (name : string) (args : gmap string string)
    : M ToolLocals :=
  let sql := "" in
  if String.eqb name "execute_sql" then
    match args !! "sql" with
    | Some sql =>
        if String.eqb sql "" then
          raise (ValueError
                   "sql parameter is required when calling execute_sql tool")
        else ret {| l_sql := sql; l_schema := None; l_table := None |}
    | None =>
        raise (ValueError
                 "sql parameter is required when calling execute_sql tool")
    end
  else if String.eqb name "analyze_table" then
    match args !! "schema", args !! "table" with
    | Some schema, Some table =>
        if String.eqb schema "" || String.eqb table "" then
          raise (ValueError
                   "'schema' and 'table' parameters are required when calling analyze_table tool")
        else ret {| l_sql := "ANALYZE " +:+ schema +:+ "." +:+ table;
                    l_schema := Some schema; l_table := Some table |}
    | _, _ =>
        raise (ValueError
                 "'schema' and 'table' parameters are required when calling analyze_table tool")
    end
  else if String.eqb name "get_execution_plan" then
    match args !! "sql" with
    | Some sql =>
        if String.eqb sql "" then
          raise (ValueError
                   "sql parameter is required when calling get_query_plan tool")
        else ret {| l_sql := "EXPLAIN " +:+ sql;
                    l_schema := None; l_table := None |}
    | None =>
        raise (ValueError
                 "sql parameter is required when calling get_query_plan tool")
    end
  else ret {| l_sql := sql; l_schema := None; l_table := None |}.

Definition text_content (s : string) : list TextContent :=
  [ {| type := "text"; text := s |} ].

(** Lines 206-217: the [with] block. *)
Definition run_statement (w : World) (c : Connection) (name : string)
    (loc : ToolLocals) : M (list TextContent) :=
  let sql := l_sql loc in
  with_cursor w c (fun cursor =>
    rs <- cursor_execute w cursor sql [] ;;
    if String.eqb name "analyze_table" then
      schema <- load_local "schema" (l_schema loc) ;;
      table <- load_local "table" (l_table loc) ;;
      ret (text_content ("Successfully analyzed table " +:+ schema
                         +:+ "." +:+ table))
    else
      match rs_description rs with
      | None => ret (text_content ("Successfully execute sql " +:+ sql))
      | Some columns =>
          rows <- cursor_fetchall rs ;;
          ret (text_content (serialize_result columns rows))
      end).

Definition call_tool (w : World) (name : string) (args : gmap string string)
    : M (list TextContent) :=
  let config := get_redshift_config w in
  loc <- resolve_sql name args ;;
  try_except_finally
    (c <- connect w config ;;
     store_conn c ;;
     set_autocommit w c ;;
     run_statement w c name loc)
    (fun e => ret (text_content ("Error executing query: " +:+ exn_str e)))
    (c <- load_conn ;; connection_close w c).

(** ** Sample worlds *)

(** [int] on the decimal strings that the samples use. *)
Definition sample_int (s : string) : outcome Z :=
  if String.eqb s "5439" then Ret 5439%Z
  else Raise (ValueError ("invalid literal for int() with base 10: '"
                          +:+ s +:+ "'")).

(** A statement without result set. *)
Definition no_result_set : ResultSet :=
  {| rs_description := None;
     rs_fetchall := Raise (DriverError "no result set");
     rs_fetchone := Raise (DriverError "no result set") |}.

(** A result set with the given columns and rows. *)
Definition result_set (columns : list string) (rows : list row) : ResultSet :=
  {| rs_description := Some columns;
     rs_fetchall := Ret rows;
     rs_fetchone := Ret (head rows) |}.

(** A warehouse that is up and answers every statement with [answer]. *)
Definition world_answering (answer : string -> list string -> outcome ResultSet)
    : World :=
  {| os_environ := ∅;
     py_int := sample_int;
     drv_connect := fun _ _ _ _ _ => None;
     drv_set_autocommit := None;
     drv_cursor := None;
     drv_execute := answer;
     drv_cursor_close := None;
     drv_close := None |}.

(** A warehouse that cannot be reached. *)
Definition world_unreachable : World :=
  {| os_environ := ∅;
     py_int := sample_int;
     drv_connect := fun _ _ _ _ _ => Some (DriverError "connection refused");
     drv_set_autocommit := None;
     drv_cursor := None;
     drv_execute := fun _ _ => Ret no_result_set;
     drv_cursor_close := None;
     drv_close := None |}.

(** A warehouse that is up and rejects every statement. *)
Definition world_rejecting : World :=
  world_answering (fun _ _ => Raise (DriverError "syntax error")).

Definition world_ok : World := world_answering (fun _ _ => Ret no_result_set).

(** ** The catalog behind the schema listing

    The statement of lines 229-234 is evaluated by the warehouse.  Its
    meaning over the names of [pg_namespace] is the function
    [schemas_query]: the [WHERE] clause keeps a name, [ORDER BY] sorts the
    kept names in ascending code-point order. *)

Module Sql.

(** [s LIKE pat]: [%] stands for any run of characters, [_] for any one
    character. *)
Fixpoint like (pat : string) (s : string) : bool :=
  match pat with
  | EmptyString =>
      match s with
      | EmptyString => true
      | String _ _ => false
      end
  | String p pat' =>
      if Ascii.eqb p "%" then
        (fix any (s : string) : bool :=
           like pat' s
           || match s with
              | EmptyString => false
              | String _ s' => any s'
              end) s
      else
        match s with
        | EmptyString => false
        | String c s' =>
            (Ascii.eqb p "_" || Ascii.eqb p c) && like pat' s'
        end
  end.

Definition le (a b : string) : Prop := String.leb a b = true.

Global Instance le_dec (a b : string) : Decision (le a b).
Proof. unfold le. apply _. Defined.

Global Instance le_total : Total le.
Proof. intros a b. apply String.leb_total. Qed.

End Sql.

Definition schema_listed (nspname : string) : bool :=
  negb (Sql.like "pg_%" nspname)
  && negb (String.eqb nspname "information_schema")
  && negb (String.eqb nspname "catalog_history").

Definition schemas_query (nspnames : list string) : list string :=
  merge_sort Sql.le (List.filter schema_listed nspnames).

(** A warehouse that is up, whose [pg_namespace] holds [nspnames], and
    that answers the schema listing statement and no other. *)
Definition world_catalog (nspnames : list string) : World :=
  world_answering (fun sql params =>
    if String.eqb sql schemas_sql && bool_decide (params = []) then
      Ret (result_set ["schema_name"]
             (map (fun n => [SStr n]) (schemas_query nspnames)))
    else Raise (DriverError "statement not supported")).

(** ** Requests and what the proofs observe of them *)

Inductive request : Type :=
| ReadResource (uri_str : string)
| CallTool (name : string) (args : gmap string string).

(** The driver calls of a whole request, from a fresh frame. *)
Definition request_trace (w : World) (r : request) : list event :=
  match r with
  | ReadResource uri_str => trace (snd (read_resource w uri_str start))
  | CallTool name args => trace (snd (call_tool w name args start))
  end.

(** How many times [conn.close()] was called. *)
Definition closes (tr : list event) : nat := count_occ event_eq_dec tr EvClose.

(** The events that open or close a connection. *)
Definition lifecycle_event (ev : event) : bool :=
  match ev with
  | EvConnect _ | EvClose => true
  | _ => false
  end.

(** The events that reach the warehouse through a cursor. *)
Definition cursor_event (ev : event) : bool :=
  match ev with
  | EvCursor | EvExecute _ _ | EvFetchall | EvFetchone | EvCursorClose => true
  | _ => false
  end.

(** [st'] extends [st] by events that neither open nor close a connection
    and leaves the local [conn] as it is. *)
Definition extends_quietly (st st' : Frame) : Prop :=
  conn st' = conn st /\
  exists evs, trace st' = trace st ++ evs
              /\ forallb (fun ev => negb (lifecycle_event ev)) evs = true.

(** A computation that never opens or closes a connection. *)
Definition quiet {A} (m : M A) : Prop :=
  forall st, extends_quietly st (snd (m st)).

(** What the starred class followed by [$] accepts in
    [identifier_pattern]. *)
Fixpoint accepts_tail (s : string) : bool :=
  match s with
  | EmptyString => true
  | String c s' => (ident_char c && accepts_tail s') || Re.at_eol (String c s')
  end.

(** The four declared path shapes of the specification's dispatch table. *)
Definition declared_shape (path_parts : list string) : bool :=
  match path_parts with
  | [p0] => String.eqb p0 "schemas"
  | [_; p1] => String.eqb p1 "tables"
  | [_; _; p2] => String.eqb p2 "ddl" || String.eqb p2 "statistic"
  | _ => false
  end.

(** The connection opens: [int(config['port'])] returns and [connect]
    does not raise. *)
Definition connection_opens (w : World) : Prop :=
  exists p,
    py_int w (cfg_port (get_redshift_config w)) = Ret p
    /\ drv_connect w (cfg_host (get_redshift_config w)) p
         (cfg_user (get_redshift_config w))
         (cfg_password (get_redshift_config w))
         (cfg_database (get_redshift_config w)) = None.

(** The connection cannot be opened: [connect] raises [e]. *)
Definition connection_refused (w : World) (e : exn) : Prop :=
  exists p,
    py_int w (cfg_port (get_redshift_config w)) = Ret p
    /\ drv_connect w (cfg_host (get_redshift_config w)) p
         (cfg_user (get_redshift_config w))
         (cfg_password (get_redshift_config w))
         (cfg_database (get_redshift_config w)) = Some e.

(** Once open, the session itself does not fail: setting autocommit,
    creating and closing a cursor and closing the connection return. *)
Definition session_ok (w : World) : Prop :=
  drv_set_autocommit w = None /\ drv_cursor w = None
  /\ drv_cursor_close w = None /\ drv_close w = None.

(** ** Tool listing (lines 120-172)

    [list_tools] returns a constant list (its log line is left out).  An
    input schema is a JSON value; a Python [dict] literal is an object with
    its keys in source order. *)

#[local] Unset Elimination Schemes.
Inductive json : Type :=
| JStr (s : string)
| JArr (items : list json)
| JObj (fields : list (string * json)).
#[local] Set Elimination Schemes.

Module Mcp.

(** [mcp.types.Tool] *)
Record Tool : Type := {
  name : string;
  description : string;
  inputSchema : json
}.

End Mcp.

Definition list_tools : list Mcp.Tool :=
  [ {| Mcp.name := "execute_sql";
       Mcp.description := "Execute a SQL Query on the Redshift cluster";
       Mcp.inputSchema :=
         JObj [("type", JStr "object");
               ("properties",
                JObj [("sql",
                       JObj [("type", JStr "string");
                             ("description", JStr "The SQL to Execute")]);
                      ("required", JArr [JStr "sql"])])] |};
    {| Mcp.name := "analyze_table";
       Mcp.description := "Analyze table to collect statistics information";
       Mcp.inputSchema :=
         JObj [("type", JStr "object");
               ("properties",
                JObj [("schema",
                       JObj [("type", JStr "string");
                             ("description", JStr "Schema name")]);
                      ("table",
                       JObj [("type", JStr "string");
                             ("description", JStr "Table name")])]);
               ("required", JArr [JStr "schema"; JStr "table"])] |};
    {| Mcp.name := "get_execution_plan";
       Mcp.description :=
         "Get actual execution plan with runtime statistics for a SQL query";
       Mcp.inputSchema :=
         JObj [("type", JStr "object");
               ("properties",
                JObj [("sql",
                       JObj [("type", JStr "string");
                             ("description", JStr "The SQL query to analyze")])]);
               ("required", JArr [JStr "sql"])] |} ].

(** [obj.get(key)] on a JSON object. *)
Fixpoint json_fields_get (key : string) (fields : list (string * json))
    : option json :=
  match fields with
  | [] => None
  | (k, v) :: fields' =>
      if String.eqb k key then Some v else json_fields_get key fields'
  end.

Definition json_get (key : string) (j : json) : option json :=
  match j with
  | JObj fields => json_fields_get key fields
  | _ => None
  end.

(** The strings of a JSON array. *)
Fixpoint json_strings (items : list json) : list string :=
  match items with
  | [] => []
  | JStr s :: items' => s :: json_strings items'
  | _ :: items' => json_strings items'
  end.

(** The arguments that an input schema requires: the [required] member of
    the schema object itself, as a JSON Schema reader takes it. *)
Definition required_arguments (schema : json) : list string :=
  match json_get "required" schema with
  | Some (JArr items) => json_strings items
  | _ => []
  end.

(** ** The order of driver calls

    An automaton over the events of a request.  It knows the driver's
    answers, so it tells a call made after a failure from a call made after
    a success. *)

Inductive phase : Type :=
| Idle            (* no driver call yet *)
| Refused         (* [connect] raised *)
| Opened          (* connected *)
| Ready           (* autocommit is set *)
| InCursor        (* a cursor was created *)
| Executed        (* the statement ran *)
| Rejected        (* [execute] raised *)
| Fetched         (* rows were fetched *)
| CursorClosed
| Failing         (* autocommit or [cursor()] raised *)
| Closed.

Definition step (w : World) (p : phase) (ev : event) : option phase :=
  match p, ev with
  | Idle, EvConnect true => Some Opened
  | Idle, EvConnect false => Some Refused
  | Opened, EvAutocommit =>
      Some (match drv_set_autocommit w with None => Ready | Some _ => Failing end)
  | Ready, EvCursor =>
      Some (match drv_cursor w with None => InCursor | Some _ => Failing end)
  | InCursor, EvExecute sql params =>
      Some (match drv_execute w sql params with
            | Ret _ => Executed
            | Raise _ => Rejected
            end)
  | Executed, EvFetchall | Executed, EvFetchone => Some Fetched
  | Executed, EvCursorClose | Rejected, EvCursorClose
  | Fetched, EvCursorClose => Some CursorClosed
  | Ready, EvClose | Failing, EvClose | CursorClosed, EvClose => Some Closed
  | _, _ => None
  end.

Fixpoint run (w : World) (p : phase) (evs : list event) : option phase :=
  match evs with
  | [] => Some p
  | ev :: evs' =>
      match step w p ev with
      | Some q => run w q evs'
      | None => None
      end
  end.

(** A complete request: nothing was called, the connection was refused,
    or everything that was opened has been closed. *)
Definition follows_protocol (w : World) (tr : list event) : bool :=
  match run w Idle tr with
  | Some Idle | Some Refused | Some Closed => true
  | _ => false
  end.

(** How many connections were opened and how many statements were sent. *)
Definition opens (tr : list event) : nat :=
  count_occ event_eq_dec tr (EvConnect true).

Definition is_execute (ev : event) : bool :=
  match ev with
  | EvExecute _ _ => true
  | _ => false
  end.

Definition executes (tr : list event) : nat :=
  length (List.filter is_execute tr).

(** A computation that makes no driver call and leaves the frame as it
    is. *)
Definition silent {A} (m : M A) : Prop := forall st, snd (m st) = st.

(** What may follow a successful [execute] inside the [with] block:
    nothing, or one fetch. *)
Definition fetch_tail {A} (m : M A) : Prop :=
  forall st,
    conn (snd (m st)) = conn st
    /\ (trace (snd (m st)) = trace st
        \/ trace (snd (m st)) = trace st ++ [EvFetchall]
        \/ trace (snd (m st)) = trace st ++ [EvFetchone]).

(** A computation that takes the automaton from [p] to a phase of
    [ends], and leaves the local [conn] as it is. *)
Definition moves {A} (w : World) (p : phase) (ends : phase -> bool)
    (m : M A) : Prop :=
  forall st,
    conn (snd (m st)) = conn st
    /\ exists evs q,
         trace (snd (m st)) = trace st ++ evs
         /\ run w p evs = Some q /\ ends q = true.

Definition after_statement (q : phase) : bool :=
  match q with
  | Executed | Rejected | Fetched => true
  | _ => false
  end.

Definition closable (q : phase) : bool :=
  match q with
  | Ready | Failing | CursorClosed => true
  | _ => false
  end.

(** The world [w] with the environment variable [RS_SCHEMA] set to [v]. *)
Definition with_rs_schema (w : World) (v : string) : World :=
  {| os_environ := <["RS_SCHEMA" := v]> (os_environ w);
     py_int := py_int w;
     drv_connect := drv_connect w;
     drv_set_autocommit := drv_set_autocommit w;
     drv_cursor := drv_cursor w;
     drv_execute := drv_execute w;
     drv_cursor_close := drv_cursor_close w;
     drv_close := drv_close w |}.

(** Counters that the automaton keeps: whether a connection is open or
    closed in a phase, and how many statements may still be sent. *)
Definition opened_flag (p : phase) : nat :=
  match p with
  | Idle | Refused => 0
  | _ => 1
  end.

Definition closed_flag (p : phase) : nat :=
  match p with
  | Closed => 1
  | _ => 0
  end.

Definition statements_left (p : phase) : nat :=
  match p with
  | Idle | Opened | Ready | InCursor => 1
  | _ => 0
  end.

(** What is known of the driver in a phase. *)
Definition phase_facts (w : World) (p : phase) : Prop :=
  match p with
  | Ready => drv_set_autocommit w = None
  | InCursor | Executed | Rejected | Fetched | CursorClosed =>
      drv_set_autocommit w = None /\ drv_cursor w = None
  | _ => True
  end.

(** A warehouse that is up but refuses to switch autocommit on. *)
Definition world_autocommit_fails : World :=
  {| os_environ := ∅;
     py_int := sample_int;
     drv_connect := fun _ _ _ _ _ => None;
     drv_set_autocommit := Some (DriverError "autocommit not supported");
     drv_cursor := None;
     drv_execute := fun _ _ => Ret no_result_set;
     drv_cursor_close := None;
     drv_close := None |}.

(** A computation that keeps an invariant of the trace. *)
Definition keeps {A} (I : list event -> Prop) (m : M A) : Prop :=
  forall st, I (trace st) -> I (trace (snd (m st))).

(** Every statement of the trace satisfies [P]. *)
Definition sends_only (P : string -> list string -> Prop)
    (tr : list event) : Prop :=
  forall sql params, EvExecute sql params ∈ tr -> P sql params.

(** The statement that the argument stage leaves for a tool call. *)
Definition tool_statement (name : string) (args : gmap string string)
    (sql : string) : Prop :=
  (name = "execute_sql" /\ args !! "sql" = Some sql /\ sql <> "")
  \/ (name = "analyze_table"
      /\ exists schema table,
           args !! "schema" = Some schema /\ args !! "table" = Some table
           /\ schema <> "" /\ table <> ""
           /\ sql = "ANALYZE " +:+ schema +:+ "." +:+ table)
  \/ (name = "get_execution_plan"
      /\ exists query,
           args !! "sql" = Some query /\ query <> ""
           /\ sql = "EXPLAIN " +:+ query)
  \/ (name <> "execute_sql" /\ name <> "analyze_table"
      /\ name <> "get_execution_plan" /\ sql = "").

(** A field that the serializer writes unambiguously: no comma and no line
    feed in it. *)
Definition plain_field (s : string) : bool :=
  negb (PyStr.contains "," s) && negb (PyStr.contains PyStr.LF s).

(** What [call_tool] answers for a statement that is not an
    [analyze_table], given what [execute] answered, and the driver calls it
    makes when the warehouse is up. *)
Definition statement_answer (sql : string) (o : outcome ResultSet)
    : outcome (list TextContent) :=
  match o with
  | Raise e => Ret (text_content ("Error executing query: " +:+ exn_str e))
  | Ret rs =>
      match rs_description rs with
      | None => Ret (text_content ("Successfully execute sql " +:+ sql))
      | Some columns =>
          match rs_fetchall rs with
          | Ret rows => Ret (text_content (serialize_result columns rows))
          | Raise e =>
              Ret (text_content ("Error executing query: " +:+ exn_str e))
          end
      end
  end.

Definition statement_calls (sql : string) (o : outcome ResultSet)
    : list event :=
  [EvConnect true; EvAutocommit; EvCursor; EvExecute sql []]
  ++ match o with
     | Ret {| rs_description := Some _ |} => [EvFetchall]
     | _ => []
     end
  ++ [EvCursorClose; EvClose].

(** ** A warehouse that reads the statement

    [world_warehouse] answers a statement over [pg_namespace] by what its
    text says, clause by clause: a [WHERE] condition filters only when the
    text holds it, and the names are sorted only when the text holds the
    [ORDER BY]. *)





(** * Properties *)

(** ** The Identifier Validator *)

Section IdentifierValidator.

Lemma matches_star_eol (b : bool) (s : string) :
  Re.matches [Re.Star ident_char; Re.Eol] b s = accepts_tail s.
Proof.
  revert b. induction s as [|c s IH]; intros b; [reflexivity|].
  cbn -[Re.at_eol]. cbn -[Re.at_eol] in IH. rewrite IH.
  now rewrite andb_true_r.
Qed.

Lemma is_valid_identifier_unfold (c : ascii) (s : string) :
  is_valid_identifier (String c s) = ident_start c && accepts_tail s.
Proof.
  unfold is_valid_identifier, Re.match_, identifier_pattern.
  change (Re.matches (Re.Bol :: ?r) true ?x) with (true && Re.matches r true x).
  change (Re.matches (Re.Class ?p :: ?r) true (String c s))
    with (p c && Re.matches r false s).
  now rewrite matches_star_eol.
Qed.

Lemma accepts_tail_spec (s : string) :
  accepts_tail s = true <->
  all_ident_chars s = true \/
  exists s0, s = s0 +:+ PyStr.nl /\ all_ident_chars s0 = true.
Proof.
  induction s as [|c s IH]; cbn -[Re.at_eol].
  - split; auto.
  - rewrite orb_true_iff, andb_true_iff, IH. split.
    + intros [[Hc [Hs | (s0 & -> & Hs0)]] | He].
      * left. now rewrite Hc.
      * right. exists (String c s0). cbn. now rewrite Hc.
      * destruct s; [|discriminate]. right. exists EmptyString.
        cbn in He. apply Ascii.eqb_eq in He. now subst.
    + intros [H | (s0 & E & Hs0)].
      * apply andb_true_iff in H. left. intuition.
      * destruct s0 as [|d s0]; cbn in E; injection E as -> ->.
        -- right. reflexivity.
        -- cbn in Hs0. apply andb_true_iff in Hs0. left. split; [easy|].
           right. exists s0. easy.
Qed.

(** What the validator accepts: the bare identifiers, and the bare
    identifiers followed by one line feed. *)
Lemma is_valid_identifier_spec (name : string) :
  is_valid_identifier name = true <->
  bare_identifier name = true \/
  exists s0, name = s0 +:+ PyStr.nl /\ bare_identifier s0 = true.
Proof.
  destruct name as [|c s].
  - split; [discriminate|]. intros [H | (s0 & E & H)]; [discriminate|].
    destruct s0; discriminate.
  - rewrite is_valid_identifier_unfold, andb_true_iff, accepts_tail_spec.
    cbn [bare_identifier]. rewrite andb_true_iff. split.
    + intros [Hc [Hs | (s0 & -> & Hs0)]]; [now left|].
      right. exists (String c s0). cbn. now rewrite Hc.
    + intros [H | (s0 & E & Hs0)]; [intuition|].
      destruct s0 as [|d s0]; [discriminate|].
      cbn in E. injection E as -> ->. cbn in Hs0.
      apply andb_true_iff in Hs0. split; [easy|]. right. exists s0. easy.
Qed.

(** Every bare identifier is accepted. *)
Lemma is_valid_identifier_complete (name : string) :
  bare_identifier name = true -> is_valid_identifier name = true.
Proof. intros H. apply is_valid_identifier_spec. now left. Qed.

Lemma all_ident_chars_nl (s : string) :
  all_ident_chars (s +:+ PyStr.nl) = false.
Proof.
  induction s as [|c s IH]; [reflexivity|].
  change (all_ident_chars (String c s +:+ PyStr.nl))
    with (ident_char c && all_ident_chars (s +:+ PyStr.nl)).
  rewrite IH. apply andb_false_r.
Qed.

Lemma bare_identifier_nl (s : string) :
  bare_identifier (s +:+ PyStr.nl) = false.
Proof.
  destruct s as [|c s]; [reflexivity|].
  change (bare_identifier (String c s +:+ PyStr.nl))
    with (ident_start c && all_ident_chars (s +:+ PyStr.nl)).
  rewrite all_ident_chars_nl. apply andb_false_r.
Qed.

End IdentifierValidator.

(** C2.  The Identifier Validator does not reject every string outside the
    pattern's language: a bare identifier followed by a line feed, which is
    not a bare identifier, is accepted, because [$] also matches just before
    a final line feed. *)
Theorem is_valid_identifier_accepts_trailing_newline (name : string) :
  bare_identifier name = true ->
  is_valid_identifier (name +:+ PyStr.nl) = true
  /\ bare_identifier (name +:+ PyStr.nl) = false.
Proof.
  intros H. split; [|apply bare_identifier_nl].
  apply is_valid_identifier_spec. right. now exists name.
Qed.

Lemma is_valid_identifier_accepts_trailing_newline_witness :
  bare_identifier "orders" = true
  /\ is_valid_identifier ("orders" +:+ PyStr.nl) = true
  /\ bare_identifier ("orders" +:+ PyStr.nl) = false.
Proof.
  split; [reflexivity|].
  apply (is_valid_identifier_accepts_trailing_newline "orders"). reflexivity.
Defined.

(** ** Computations that leave the connection alone *)

Create HintDb quiet.

Section Quiet.

Lemma extends_quietly_refl (st : Frame) : extends_quietly st st.
Proof. split; [reflexivity|]. exists []. now rewrite app_nil_r. Qed.

Lemma extends_quietly_trans (st1 st2 st3 : Frame) :
  extends_quietly st1 st2 -> extends_quietly st2 st3 ->
  extends_quietly st1 st3.
Proof.
  intros [Hc1 (e1 & Ht1 & Hq1)] [Hc2 (e2 & Ht2 & Hq2)].
  split; [congruence|]. exists (e1 ++ e2). split.
  - now rewrite Ht2, Ht1, app_assoc.
  - rewrite forallb_app. now rewrite Hq1, Hq2.
Qed.

Lemma quiet_ret {A} (a : A) : quiet (ret a).
Proof. intros st. apply extends_quietly_refl. Qed.

Lemma quiet_raise {A} (e : exn) : quiet (@raise A e).
Proof. intros st. apply extends_quietly_refl. Qed.

Lemma quiet_lift {A} (o : outcome A) : quiet (lift o).
Proof. intros st. apply extends_quietly_refl. Qed.

Lemma quiet_raise_if (o : option exn) : quiet (raise_if o).
Proof. destruct o; [apply quiet_raise | apply quiet_ret]. Qed.

Lemma quiet_load_local {A} (var : string) (v : option A) :
  quiet (load_local var v).
Proof. destruct v; [apply quiet_ret | apply quiet_raise]. Qed.

Lemma quiet_getitem {A} (l : list A) (i : nat) : quiet (getitem l i).
Proof. unfold getitem. destruct (l !! i); [apply quiet_ret | apply quiet_raise]. Qed.

Lemma quiet_emit (ev : event) :
  lifecycle_event ev = false -> quiet (emit ev).
Proof.
  intros H st. split; [reflexivity|]. exists [ev]. split; [reflexivity|].
  cbn. now rewrite H.
Qed.

Lemma quiet_bind {A B} (m : M A) (k : A -> M B) :
  quiet m -> (forall a, quiet (k a)) -> quiet (bind m k).
Proof.
  intros Hm Hk st. unfold bind. specialize (Hm st).
  destruct (m st) as [[a|e] st1]; cbn in Hm; [|exact Hm].
  eapply extends_quietly_trans; [exact Hm | apply Hk].
Qed.

Lemma quiet_try_except_finally {A} (body : M A) (handler : exn -> M A)
    (final : M unit) :
  quiet body -> (forall e, quiet (handler e)) -> quiet final ->
  quiet (try_except_finally body handler final).
Proof.
  intros Hb Hh Hf st. unfold try_except_finally. specialize (Hb st).
  destruct (body st) as [[a|e] st1]; cbn in Hb.
  - specialize (Hf st1). destruct (final st1) as [[u|e'] st2];
      cbn in *; eapply extends_quietly_trans; eassumption.
  - specialize (Hh e st1). destruct (handler e st1) as [r st2]; cbn in Hh.
    specialize (Hf st2). destruct (final st2) as [[u|e'] st3]; cbn in *;
      (eapply extends_quietly_trans; [exact Hb|]);
      eapply extends_quietly_trans; eassumption.
Qed.

Lemma quiet_try_finally {A} (body : M A) (final : M unit) :
  quiet body -> quiet final -> quiet (try_finally body final).
Proof.
  intros Hb Hf. apply quiet_try_except_finally; auto.
  intros e. apply quiet_raise.
Qed.

Lemma quiet_mapM {A B} (f : A -> M B) (l : list A) :
  (forall a, quiet (f a)) -> quiet (mapM f l).
Proof.
  intros Hf. induction l as [|x l IH]; cbn [mapM].
  - apply quiet_ret.
  - apply quiet_bind; [apply Hf|]. intros y.
    apply quiet_bind; [apply IH|]. intros ys. apply quiet_ret.
Qed.

End Quiet.

#[local] Hint Resolve quiet_ret quiet_raise quiet_lift quiet_raise_if
  quiet_load_local quiet_getitem quiet_emit quiet_mapM quiet_try_finally
  quiet_try_except_finally : quiet.

(** One step of a proof of [quiet]: split a sequence, or case on what a
    branch tests. *)
Ltac quiet_step :=
  match goal with
  | |- quiet (bind _ _) => apply quiet_bind; [|intros ?]
  | |- quiet (if ?b then _ else _) => destruct b
  | |- quiet (match ?x with _ => _ end) => destruct x
  | |- forall _, _ => intros ?
  | |- quiet _ => solve [auto with quiet]
  end.

Ltac solve_quiet := repeat quiet_step.

Section QuietCalls.

Variable w : World.

Lemma quiet_connection_cursor c : quiet (connection_cursor w c).
Proof. unfold connection_cursor. solve_quiet. Qed.

Lemma quiet_set_autocommit c : quiet (set_autocommit w c).
Proof. unfold set_autocommit. solve_quiet. Qed.

Lemma quiet_cursor_execute cursor sql params :
  quiet (cursor_execute w cursor sql params).
Proof. unfold cursor_execute. solve_quiet. Qed.

Lemma quiet_cursor_fetchall rs : quiet (cursor_fetchall rs).
Proof. unfold cursor_fetchall. solve_quiet. Qed.

Lemma quiet_cursor_fetchone rs : quiet (cursor_fetchone rs).
Proof. unfold cursor_fetchone. solve_quiet. Qed.

Lemma quiet_cursor_exit cursor : quiet (cursor_exit w cursor).
Proof. unfold cursor_exit. solve_quiet. Qed.

Hint Resolve quiet_connection_cursor quiet_set_autocommit
  quiet_cursor_execute quiet_cursor_fetchall quiet_cursor_fetchone
  quiet_cursor_exit : quiet.

Lemma quiet_with_cursor {A} c (body : Cursor -> M A) :
  (forall cursor, quiet (body cursor)) -> quiet (with_cursor w c body).
Proof. intros H. unfold with_cursor. solve_quiet. Qed.

Lemma quiet_join_scalars sep items : quiet (join_scalars sep items).
Proof. unfold join_scalars. solve_quiet. Qed.

Lemma quiet_first_column rows : quiet (first_column rows).
Proof. unfold first_column. solve_quiet. Qed.

Hint Resolve quiet_join_scalars quiet_first_column : quiet.

Lemma quiet_get_schemas c : quiet (_get_schemas w c).
Proof. unfold _get_schemas. apply quiet_with_cursor. solve_quiet. Qed.

Lemma quiet_get_tables c schema : quiet (_get_tables w c schema).
Proof. unfold _get_tables. apply quiet_with_cursor. solve_quiet. Qed.

Lemma quiet_get_table_ddl c schema table :
  quiet (_get_table_ddl w c schema table).
Proof.
  unfold _get_table_ddl. quiet_step; [solve_quiet|].
  apply quiet_with_cursor. solve_quiet.
Qed.

Lemma quiet_get_table_statistic c schema table :
  quiet (_get_table_statistic w c schema table).
Proof.
  unfold _get_table_statistic. quiet_step; [solve_quiet|].
  apply quiet_with_cursor. solve_quiet.
Qed.

Lemma quiet_len_and_item l n i s : quiet (len_and_item l n i s).
Proof. unfold len_and_item. solve_quiet. Qed.

Hint Resolve quiet_get_schemas quiet_get_tables quiet_get_table_ddl
  quiet_get_table_statistic quiet_len_and_item : quiet.

Lemma quiet_dispatch_resource c path_parts :
  quiet (dispatch_resource w c path_parts).
Proof. unfold dispatch_resource. solve_quiet. Qed.

Lemma quiet_run_statement c name loc : quiet (run_statement w c name loc).
Proof. unfold run_statement. apply quiet_with_cursor. solve_quiet. Qed.

End QuietCalls.

(** ** Connection lifecycle *)

Section Lifecycle.

Lemma closes_app (l1 l2 : list event) :
  closes (l1 ++ l2) = closes l1 + closes l2.
Proof. apply count_occ_app. Qed.

Lemma closes_quiet (evs : list event) :
  forallb (fun ev => negb (lifecycle_event ev)) evs = true -> closes evs = 0.
Proof.
  induction evs as [|ev evs IH]; [reflexivity|].
  cbn [forallb]. rewrite andb_true_iff. intros [Hev Hevs].
  unfold closes in *. destruct ev; try discriminate; cbn; auto.
Qed.

Lemma quiet_not_opened (evs : list event) (b : bool) :
  forallb (fun ev => negb (lifecycle_event ev)) evs = true ->
  EvConnect b ∉ evs.
Proof.
  intros H Hin. rewrite forallb_forall in H.
  apply list_elem_of_In in Hin. apply H in Hin. discriminate.
Qed.

Variable w : World.

(** The shape shared by [read_resource] and [call_tool]: the connection is
    opened first thing in the [try] block and closed in [finally].  When
    the open succeeds, [close] is called once, as the last driver call. *)
Lemma guarded_closes_once {A} (config : Config) (rest : Connection -> M A)
    (handler : exn -> M A) (st : Frame) :
  (forall c, quiet (rest c)) -> (forall e, quiet (handler e)) ->
  conn st = None ->
  exists evs,
    trace (snd (try_except_finally
                  (c <- connect w config ;; store_conn c ;; rest c)
                  handler
                  (c <- load_conn ;; connection_close w c) st))
    = trace st ++ evs
    /\ (EvConnect true ∈ evs -> closes evs = 1 /\ last evs = Some EvClose).
Proof.
  intros Hrest Hhandler Hconn.
  unfold try_except_finally, bind, connect, lift, load_conn,
    connection_close, store_conn.
  destruct (py_int w (cfg_port config)) as [p|e].
  - cbn.
    destruct (drv_connect w (cfg_host config) p (cfg_user config)
                (cfg_password config) (cfg_database config)) as [e|]; cbn.
    + (* the open fails: [conn] stays unbound *)
      match goal with |- context [handler e ?s] =>
        pose proof (Hhandler e s) as [Hc (evs & Ht & Hq)];
        destruct (handler e s) as [r st1] end.
      cbn in *. rewrite Hc, Hconn. cbn. rewrite Ht.
      exists (EvConnect false :: evs). split; [now rewrite <- app_assoc|].
      intros Hin. apply elem_of_cons in Hin as [Hin|Hin]; [discriminate|].
      now apply quiet_not_opened in Hin.
    + (* the open succeeds *)
      match goal with |- context [rest Conn ?s] =>
        pose proof (Hrest Conn s) as [Hc (evs & Ht & Hq)];
        destruct (rest Conn s) as [[a|e] st1] end; cbn in *.
      * rewrite Hc. cbn. exists (EvConnect true :: evs ++ [EvClose]).
        split.
        -- destruct (drv_close w); cbn; rewrite Ht;
             now rewrite <- !app_assoc.
        -- intros _. split.
           ++ change (EvConnect true :: evs ++ [EvClose])
                with ([EvConnect true] ++ evs ++ [EvClose]).
              rewrite !closes_app, (closes_quiet evs Hq). reflexivity.
           ++ change (EvConnect true :: evs ++ [EvClose])
                with ((EvConnect true :: evs) ++ [EvClose]).
              apply last_snoc.
      * match goal with |- context [handler e ?s] =>
          pose proof (Hhandler e s) as [Hc2 (evs2 & Ht2 & Hq2)];
          destruct (handler e s) as [r st2] end.
        cbn in *. rewrite Hc2, Hc. cbn.
        exists (EvConnect true :: (evs ++ evs2) ++ [EvClose]). split.
        -- destruct (drv_close w); cbn; rewrite Ht2, Ht;
             now rewrite <- !app_assoc.
        -- intros _. split.
           ++ change (EvConnect true :: (evs ++ evs2) ++ [EvClose])
                with ([EvConnect true] ++ (evs ++ evs2) ++ [EvClose]).
              rewrite !closes_app, (closes_quiet evs Hq),
                (closes_quiet evs2 Hq2). reflexivity.
           ++ change (EvConnect true :: (evs ++ evs2) ++ [EvClose])
                with ((EvConnect true :: evs ++ evs2) ++ [EvClose]).
              apply last_snoc.
  - (* [int(config['port'])] fails: [connect] is not even called *)
    cbn.
    match goal with |- context [handler e ?s] =>
      pose proof (Hhandler e s) as [Hc (evs & Ht & Hq)];
      destruct (handler e s) as [r st1] end.
    cbn in *. rewrite Hc, Hconn. cbn. rewrite Ht.
    exists evs. split; [reflexivity|].
    intros Hin. now apply quiet_not_opened in Hin.
Qed.

End Lifecycle.

(** Argument validation makes no driver call. *)
Lemma resolve_sql_frame (name : string) (args : gmap string string)
    (st : Frame) :
  snd (resolve_sql name args st) = st.
Proof.
  unfold resolve_sql.
  repeat match goal with
         | |- context [if ?b then _ else _] => destruct b
         | |- context [match ?x with _ => _ end] => destruct x
         end; reflexivity.
Qed.

(** C1.  In every request, resource read or tool call, whose connection is
    opened, [conn.close()] is called exactly once before the request returns,
    whatever the outcome of the request; it is the last driver call. *)
Theorem connection_closed_exactly_once (w : World) (r : request) :
  EvConnect true ∈ request_trace w r ->
  closes (request_trace w r) = 1 /\ last (request_trace w r) = Some EvClose.
Proof.
  destruct r as [uri_str | name args]; cbn [request_trace].
  - unfold read_resource.
    destruct (negb (PyStr.startswith uri_str rs_scheme)).
    + cbn. intros H. now apply elem_of_nil in H.
    + edestruct (guarded_closes_once w (get_redshift_config w)
                   (fun c => set_autocommit w c ;;
                      dispatch_resource w c
                        (PyStr.split "/" (PyStr.slice_from 6 uri_str)))
                   (fun e => raise (RuntimeError ("Redshift Error: " +:+ exn_str e)))
                   start) as (evs & Ht & H); try reflexivity.
      * intros c. apply quiet_bind; [apply quiet_set_autocommit|].
        intros _. apply quiet_dispatch_resource.
      * intros e. apply quiet_raise.
      * rewrite Ht. exact H.
  - change (call_tool w name args start)
      with (match resolve_sql name args start with
            | (Ret loc, st') =>
                try_except_finally
                  (c <- connect w (get_redshift_config w) ;;
                   store_conn c ;;
                   set_autocommit w c ;;
                   run_statement w c name loc)
                  (fun e => ret (text_content
                                   ("Error executing query: " +:+ exn_str e)))
                  (c <- load_conn ;; connection_close w c) st'
            | (Raise e, st') => (Raise e, st')
            end).
    destruct (resolve_sql name args start) as [[loc|e] st] eqn:E.
    + pose proof (resolve_sql_frame name args start) as Hst.
      rewrite E in Hst. cbn in Hst. subst st.
      edestruct (guarded_closes_once w (get_redshift_config w)
                   (fun c => set_autocommit w c ;; run_statement w c name loc)
                   (fun e => ret (text_content
                                    ("Error executing query: " +:+ exn_str e)))
                   start) as (evs & Ht & H); try reflexivity.
      * intros c. apply quiet_bind; [apply quiet_set_autocommit|].
        intros _. apply quiet_run_statement.
      * intros e. apply quiet_ret.
      * rewrite Ht. exact H.
    + pose proof (resolve_sql_frame name args start) as Hst.
      rewrite E in Hst. cbn in Hst. subst st.
      cbn. intros H. now apply elem_of_nil in H.
Qed.

Lemma connection_closed_exactly_once_witness :
  closes (request_trace world_rejecting
            (CallTool "execute_sql" {[ "sql" := "select 1" ]})) = 1
  /\ last (request_trace world_rejecting
             (CallTool "execute_sql" {[ "sql" := "select 1" ]}))
     = Some EvClose.
Proof.
  apply (connection_closed_exactly_once world_rejecting
           (CallTool "execute_sql" {[ "sql" := "select 1" ]})).
  vm_compute. apply list_elem_of_here.
Defined.

(** ** Tool Dispatcher *)

(** Unfolds an entry point down to the driver's answers. *)
Ltac unfold_request :=
  unfold call_tool, read_resource, dispatch_resource, run_statement,
    _get_schemas, _get_tables, _get_table_ddl, _get_table_statistic,
    with_cursor, try_finally, try_except_finally, connect, connection_cursor,
    set_autocommit, connection_close, cursor_execute, cursor_fetchall,
    cursor_fetchone, cursor_exit, store_conn, load_conn, load_local,
    len_and_item, getitem, bind, lift, emit, ret, raise.

(** C9.  An [execute_sql] call without [sql], or with an empty [sql], raises
    the [ValueError] of line 183, and no driver call is made: no connection
    is opened. *)
Theorem execute_sql_requires_sql (w : World) (args : gmap string string) :
  args !! "sql" = None \/ args !! "sql" = Some "" ->
  call_tool w "execute_sql" args start
  = (Raise (ValueError
              "sql parameter is required when calling execute_sql tool"),
     {| trace := []; conn := None |}).
Proof.
  intros H. unfold call_tool, bind, resolve_sql.
  rewrite String.eqb_refl. destruct H as [-> | ->]; reflexivity.
Qed.

Lemma execute_sql_requires_sql_witness :
  call_tool world_ok "execute_sql" {[ "sql" := "" ]} start
  = (Raise (ValueError
              "sql parameter is required when calling execute_sql tool"),
     {| trace := []; conn := None |}).
Proof.
  apply (execute_sql_requires_sql world_ok {[ "sql" := "" ]}).
  right. reflexivity.
Defined.

(** C6.  An [analyze_table] call with non-empty [schema] and [table] sends
    the text [ANALYZE schema.table], built from the arguments as they are,
    and when the statement succeeds answers with one text item, the
    confirmation that names [schema.table], whatever the cursor holds. *)
Theorem analyze_table_confirms (w : World) (args : gmap string string)
    (schema table : string) (rs : ResultSet) :
  args !! "schema" = Some schema -> args !! "table" = Some table ->
  schema <> "" -> table <> "" ->
  connection_opens w -> session_ok w ->
  drv_execute w ("ANALYZE " +:+ schema +:+ "." +:+ table) [] = Ret rs ->
  call_tool w "analyze_table" args start
  = (Ret [ {| type := "text";
              text := "Successfully analyzed table " +:+ schema
                      +:+ "." +:+ table |} ],
     {| trace := [EvConnect true; EvAutocommit; EvCursor;
                  EvExecute ("ANALYZE " +:+ schema +:+ "." +:+ table) [];
                  EvCursorClose; EvClose];
        conn := Some Conn |}).
Proof.
  intros Hs Ht Hs0 Ht0 (p & Hp & Hc) (Ha & Hcur & Hcc & Hcl) Hx.
  apply String.eqb_neq in Hs0, Ht0.
  unfold call_tool, bind at 1. unfold resolve_sql.
  change (String.eqb "analyze_table" "execute_sql") with false.
  change (String.eqb "analyze_table" "analyze_table") with true.
  cbv iota. rewrite Hs, Ht, Hs0, Ht0. cbn [orb].
  unfold_request. cbn [l_sql l_schema l_table].
  rewrite Hp, Hc. cbn. rewrite Ha. cbn. rewrite Hcur. cbn. rewrite Hx. cbn.
  rewrite Hcc. cbn. rewrite Hcl. reflexivity.
Qed.

Lemma analyze_table_confirms_witness :
  call_tool world_ok "analyze_table"
    {[ "schema" := "sales"; "table" := "orders" ]} start
  = (Ret [ {| type := "text";
              text := "Successfully analyzed table sales.orders" |} ],
     {| trace := [EvConnect true; EvAutocommit; EvCursor;
                  EvExecute "ANALYZE sales.orders" [];
                  EvCursorClose; EvClose];
        conn := Some Conn |}).
Proof.
  apply (analyze_table_confirms world_ok
           {[ "schema" := "sales"; "table" := "orders" ]}
           "sales" "orders" no_result_set);
    try reflexivity; try discriminate.
  - exists 5439%Z. split; reflexivity.
  - repeat split.
Defined.

(** The same path takes a name that the Identifier Validator rejects. *)
Example analyze_table_takes_any_name :
  is_valid_identifier "orders; DROP TABLE t" = false
  /\ call_tool world_ok "analyze_table"
       {[ "schema" := "sales"; "table" := "orders; DROP TABLE t" ]} start
     = (Ret [ {| type := "text";
                 text := "Successfully analyzed table sales.orders; DROP TABLE t" |} ],
        {| trace := [EvConnect true; EvAutocommit; EvCursor;
                     EvExecute "ANALYZE sales.orders; DROP TABLE t" [];
                     EvCursorClose; EvClose];
           conn := Some Conn |}).
Proof. split; reflexivity. Qed.

(** After validation, a failure to open the connection leaves the local
    [conn] unbound, and the [finally] clause of line 221 raises in place of
    the error text that the [except] clause was returning. *)
Lemma guarded_statement_connect_failure (w : World) (name : string)
    (loc : ToolLocals) (e : exn) :
  connection_refused w e ->
  try_except_finally
    (c <- connect w (get_redshift_config w) ;;
     store_conn c ;;
     set_autocommit w c ;;
     run_statement w c name loc)
    (fun e => ret (text_content ("Error executing query: " +:+ exn_str e)))
    (c <- load_conn ;; connection_close w c) start
  = (Raise (UnboundLocalError "conn"),
     {| trace := [EvConnect false]; conn := None |}).
Proof.
  intros (p & Hp & Hc). unfold_request. rewrite Hp, Hc. reflexivity.
Qed.

(** C8.  A tool call whose arguments pass validation and whose connection
    cannot be opened does not return an error text: it raises
    [UnboundLocalError] to the transport. *)
Theorem call_tool_raises_when_connect_fails (w : World) (name : string)
    (args : gmap string string) (loc : ToolLocals) (e : exn) :
  resolve_sql name args start = (Ret loc, start) ->
  connection_refused w e ->
  call_tool w name args start
  = (Raise (UnboundLocalError "conn"),
     {| trace := [EvConnect false]; conn := None |}).
Proof.
  intros Hloc Hrefused. unfold call_tool, bind at 1. rewrite Hloc.
  now apply guarded_statement_connect_failure with (e := e).
Qed.

Lemma call_tool_raises_when_connect_fails_witness :
  call_tool world_unreachable "execute_sql" {[ "sql" := "select 1" ]} start
  = (Raise (UnboundLocalError "conn"),
     {| trace := [EvConnect false]; conn := None |}).
Proof.
  apply (call_tool_raises_when_connect_fails world_unreachable "execute_sql"
           {[ "sql" := "select 1" ]}
           {| l_sql := "select 1"; l_schema := None; l_table := None |}
           (DriverError "connection refused")).
  - reflexivity.
  - exists 5439%Z. split; reflexivity.
Defined.

(** Once the connection is open and as long as [close] returns, every
    failure of a tool call is turned into an error text. *)
Lemma call_tool_softens_after_open (w : World) (name : string)
    (args : gmap string string) (loc : ToolLocals) :
  resolve_sql name args start = (Ret loc, start) ->
  connection_opens w -> drv_close w = None ->
  exists t, fst (call_tool w name args start) = Ret (text_content t).
Proof.
  intros Hloc (p & Hp & Hc) Hcl. unfold call_tool, bind at 1. rewrite Hloc.
  unfold_request. rewrite Hp, Hc. cbn.
  destruct (drv_set_autocommit w); cbn; rewrite ?Hcl; [eauto|].
  destruct (drv_cursor w); cbn; rewrite ?Hcl; [eauto|].
  destruct (drv_execute w (l_sql loc) []) as [rs|]; cbn.
  2: { destruct (drv_cursor_close w); cbn; rewrite ?Hcl; eauto. }
  destruct (String.eqb name "analyze_table").
  - destruct (l_schema loc), (l_table loc); cbn;
      destruct (drv_cursor_close w); cbn; rewrite ?Hcl; eauto.
  - destruct (rs_description rs); cbn.
    + destruct (rs_fetchall rs); cbn;
        destruct (drv_cursor_close w); cbn; rewrite ?Hcl; eauto.
    + destruct (drv_cursor_close w); cbn; rewrite ?Hcl; eauto.
Qed.

(** A name that is none of the three tools is not rejected and its
    arguments are not looked at: the statement is the empty string. *)
Lemma resolve_sql_unknown_name (name : string) (args : gmap string string)
    (st : Frame) :
  name <> "execute_sql" -> name <> "analyze_table" ->
  name <> "get_execution_plan" ->
  resolve_sql name args st
  = (Ret {| l_sql := ""; l_schema := None; l_table := None |}, st).
Proof.
  intros H1 H2 H3. apply String.eqb_neq in H1, H2, H3.
  unfold resolve_sql. now rewrite H1, H2, H3.
Qed.

(** With the warehouse up, a call under an unknown name runs the empty
    string as a statement: the answer is an error text when the driver
    rejects it, the generic success text when it has no result set. *)
Lemma unknown_tool_executes_empty_sql (w : World) (name : string)
    (args : gmap string string) :
  name <> "execute_sql" -> name <> "analyze_table" ->
  name <> "get_execution_plan" ->
  connection_opens w -> session_ok w ->
  call_tool w name args start
  = (match drv_execute w "" [] with
     | Raise e => Ret (text_content ("Error executing query: " +:+ exn_str e))
     | Ret rs =>
         match rs_description rs with
         | None => Ret (text_content "Successfully execute sql ")
         | Some columns =>
             match rs_fetchall rs with
             | Ret rows => Ret (text_content (serialize_result columns rows))
             | Raise e =>
                 Ret (text_content ("Error executing query: " +:+ exn_str e))
             end
         end
     end,
     {| trace :=
          [EvConnect true; EvAutocommit; EvCursor; EvExecute "" []]
          ++ match drv_execute w "" [] with
             | Ret {| rs_description := Some _ |} => [EvFetchall]
             | _ => []
             end
          ++ [EvCursorClose; EvClose];
        conn := Some Conn |}).
Proof.
  intros H1 H2 H3 (p & Hp & Hc) (Ha & Hcur & Hcc & Hcl).
  unfold call_tool, bind at 1. rewrite resolve_sql_unknown_name by assumption.
  apply String.eqb_neq in H2.
  unfold_request. cbn [l_sql l_schema l_table].
  rewrite Hp, Hc. cbn. rewrite Ha. cbn. rewrite Hcur. cbn.
  destruct (drv_execute w "" []) as [[d fa fo]|e]; cbn.
  - rewrite H2. destruct d; cbn.
    + destruct fa; cbn; rewrite Hcc; cbn; rewrite Hcl; reflexivity.
    + rewrite Hcc. cbn. rewrite Hcl. reflexivity.
  - rewrite Hcc. cbn. rewrite Hcl. reflexivity.
Qed.

(** C10.  A call under an unknown name passes the argument stage, and when
    the connection cannot be opened the caller gets neither an error text
    nor a success text: [UnboundLocalError] is raised. *)
Theorem unknown_tool_raises_when_connect_fails (w : World) (name : string)
    (args : gmap string string) (e : exn) :
  name <> "execute_sql" -> name <> "analyze_table" ->
  name <> "get_execution_plan" ->
  connection_refused w e ->
  call_tool w name args start
  = (Raise (UnboundLocalError "conn"),
     {| trace := [EvConnect false]; conn := None |}).
Proof.
  intros H1 H2 H3 Hrefused.
  unfold call_tool, bind at 1. rewrite resolve_sql_unknown_name by assumption.
  now apply guarded_statement_connect_failure with (e := e).
Qed.

Lemma unknown_tool_raises_when_connect_fails_witness :
  call_tool world_unreachable "list_tables" ∅ start
  = (Raise (UnboundLocalError "conn"),
     {| trace := [EvConnect false]; conn := None |}).
Proof.
  apply (unknown_tool_raises_when_connect_fails world_unreachable
           "list_tables" ∅ (DriverError "connection refused"));
    try discriminate.
  exists 5439%Z. split; reflexivity.
Defined.

(** ** Resource Router *)

Section Router.

Variable w : World.

(** [read_resource] on a well-prefixed URI, once the connection is open
    and autocommit is set: the dispatch runs, then [close]. *)
Lemma read_resource_open (uri_str : string) :
  PyStr.startswith uri_str rs_scheme = true ->
  connection_opens w -> drv_set_autocommit w = None ->
  read_resource w uri_str start
  = try_except_finally
      (dispatch_resource w Conn
         (PyStr.split "/" (PyStr.slice_from 6 uri_str)))
      (fun e => raise (RuntimeError ("Redshift Error: " +:+ exn_str e)))
      (connection_close w Conn)
      {| trace := [EvConnect true; EvAutocommit]; conn := Some Conn |}.
Proof.
  intros Hpre (p & Hp & Hc) Ha. unfold read_resource. rewrite Hpre.
  cbn [negb]. unfold try_except_finally, connect, store_conn,
    set_autocommit, load_conn, connection_close, bind, lift, emit.
  rewrite Hp. cbv beta iota. rewrite Hc. cbn -[dispatch_resource].
  rewrite Ha. cbn -[dispatch_resource].
  match goal with |- context [dispatch_resource w Conn ?parts ?s] =>
    pose proof (quiet_dispatch_resource w Conn parts s) as [Hq _];
    destruct (dispatch_resource w Conn parts s) as [[a|e] st1] end;
    destruct st1 as [tr1 c1]; cbn in Hq |- *; subst c1; reflexivity.
Qed.


(** A path of an undeclared shape that does not start with [schemas]
    matches no branch: the dispatch returns [None], with no driver call. *)
Lemma dispatch_undeclared (c : Connection) (p0 : string)
    (rest : list string) (st : Frame) :
  p0 <> "schemas" -> declared_shape (p0 :: rest) = false ->
  dispatch_resource w c (p0 :: rest) st = (Ret SNone, st).
Proof.
  intros Hp0 Hshape. apply String.eqb_neq in Hp0.
  unfold dispatch_resource, len_and_item, getitem, bind, ret.
  cbn [lookup list_lookup]. rewrite Hp0.
  destruct rest as [|p1 [|p2 [|p3 rest]]];
    cbn [declared_shape] in Hshape;
    cbn [lookup list_lookup length Nat.eqb]; try reflexivity.
  - now rewrite Hshape.
  - apply orb_false_iff in Hshape as [-> ->]. reflexivity.
Qed.

(** The DDL and statistic branches raise before any cursor is created when
    an identifier is not valid. *)
Lemma dispatch_invalid_identifier (c : Connection)
    (schema table kind : string) (st : Frame) :
  kind = "ddl" \/ kind = "statistic" ->
  schema <> "schemas" ->
  is_valid_identifier schema = false \/ is_valid_identifier table = false ->
  dispatch_resource w c [schema; table; kind] st
  = (Raise (ValueError ("Invalid schema or table name: " +:+ schema
                        +:+ "." +:+ table)), st).
Proof.
  intros Hkind Hschema Hinvalid. apply String.eqb_neq in Hschema.
  assert (negb (is_valid_identifier schema)
          || negb (is_valid_identifier table) = true) as Hguard.
  { destruct Hinvalid as [-> | ->]; [reflexivity | apply orb_true_r]. }
  unfold dispatch_resource, len_and_item, getitem, bind, ret.
  cbn [lookup list_lookup length Nat.eqb]. rewrite Hschema.
  unfold _get_table_ddl, _get_table_statistic.
  destruct Hkind as [-> | ->]; cbn [String.eqb Ascii.eqb Bool.eqb];
    rewrite Hguard; reflexivity.
Qed.

End Router.

(** C3.  A DDL or statistic read with an identifier that the validator
    rejects sends no SQL: no cursor is created and nothing is executed,
    whatever the driver answers.  The connection is opened before the
    identifiers are checked: when it opens, the driver calls of the read are
    connect, set autocommit and close, in that order and nothing else, and
    the read fails.  When moreover setting autocommit succeeds and [close]
    returns, it fails with the [RuntimeError] that wraps the invalid-name
    message. *)
Theorem invalid_identifier_sends_no_sql (w : World)
    (uri_str schema table kind : string) :
  PyStr.startswith uri_str rs_scheme = true ->
  PyStr.split "/" (PyStr.slice_from 6 uri_str) = [schema; table; kind] ->
  kind = "ddl" \/ kind = "statistic" ->
  schema <> "schemas" ->
  is_valid_identifier schema = false \/ is_valid_identifier table = false ->
  (forall ev, ev ∈ request_trace w (ReadResource uri_str) ->
              cursor_event ev = false)
  /\ (connection_opens w ->
      request_trace w (ReadResource uri_str)
      = [EvConnect true; EvAutocommit; EvClose]
      /\ exists e, fst (read_resource w uri_str start) = Raise e)
  /\ (connection_opens w -> drv_set_autocommit w = None ->
      drv_close w = None ->
      read_resource w uri_str start
      = (Raise (RuntimeError
                  ("Redshift Error: Invalid schema or table name: "
                   +:+ schema +:+ "." +:+ table)),
         {| trace := [EvConnect true; EvAutocommit; EvClose];
            conn := Some Conn |})).
Proof.
  intros Hpre Hsplit Hkind Hschema Hinvalid. split; [|split].
  - cbn [request_trace]. unfold read_resource. rewrite Hpre, Hsplit.
    cbn [negb]. unfold try_except_finally, connect, store_conn, load_conn,
      set_autocommit, connection_close, lift, emit, raise_if, bind.
    destruct (py_int w _) as [p|e]; cbn -[dispatch_resource].
    2: { intros ev H. now apply elem_of_nil in H. }
    destruct (drv_connect w _ p _ _ _) as [e|]; cbn -[dispatch_resource].
    { intros ev H. apply list_elem_of_singleton in H. now subst. }
    destruct (drv_set_autocommit w) as [e|]; cbn -[dispatch_resource].
    + destruct (drv_close w); cbn; intros ev H;
        repeat (apply elem_of_cons in H as [-> | H]; [reflexivity|]);
        now apply elem_of_nil in H.
    + rewrite dispatch_invalid_identifier by assumption. cbn.
      destruct (drv_close w); cbn; intros ev H;
        repeat (apply elem_of_cons in H as [-> | H]; [reflexivity|]);
        now apply elem_of_nil in H.
  - intros (p & Hp & Hc). cbn [request_trace]. unfold read_resource.
    rewrite Hpre, Hsplit. cbn [negb].
    unfold try_except_finally, connect, store_conn, load_conn,
      set_autocommit, connection_close, lift, emit, raise_if, bind.
    rewrite Hp. cbv beta iota. rewrite Hc. cbn -[dispatch_resource].
    destruct (drv_set_autocommit w) as [e|]; cbn -[dispatch_resource].
    + destruct (drv_close w); cbn; eauto.
    + rewrite dispatch_invalid_identifier by assumption. cbn.
      destruct (drv_close w); cbn; eauto.
  - intros Hopen Ha Hcl. rewrite read_resource_open by assumption.
    rewrite Hsplit. unfold try_except_finally.
    rewrite dispatch_invalid_identifier by assumption.
    unfold connection_close, bind, emit, raise_if. cbn. rewrite Hcl.
    reflexivity.
Qed.

Lemma invalid_identifier_sends_no_sql_witness :
  (forall ev,
      ev ∈ request_trace world_ok (ReadResource "rs:///bad-name/orders/ddl") ->
      cursor_event ev = false)
  /\ (request_trace world_autocommit_fails
        (ReadResource "rs:///bad-name/orders/ddl")
      = [EvConnect true; EvAutocommit; EvClose]
      /\ exists e,
           fst (read_resource world_autocommit_fails
                  "rs:///bad-name/orders/ddl" start) = Raise e)
  /\ read_resource world_ok "rs:///bad-name/orders/ddl" start
     = (Raise (RuntimeError
                 "Redshift Error: Invalid schema or table name: bad-name.orders"),
        {| trace := [EvConnect true; EvAutocommit; EvClose];
           conn := Some Conn |}).
Proof.
  destruct (invalid_identifier_sends_no_sql world_ok
              "rs:///bad-name/orders/ddl" "bad-name" "orders" "ddl")
    as (Hnone & _ & Hfail); try reflexivity; try discriminate.
  { left. reflexivity. }
  { left. reflexivity. }
  destruct (invalid_identifier_sends_no_sql world_autocommit_fails
              "rs:///bad-name/orders/ddl" "bad-name" "orders" "ddl")
    as (_ & Hopen & _); try reflexivity; try discriminate.
  { left. reflexivity. }
  { left. reflexivity. }
  split; [exact Hnone|]. split.
  - apply Hopen. exists 5439%Z. split; reflexivity.
  - apply Hfail; try reflexivity. exists 5439%Z. split; reflexivity.
Defined.

(** The connection is open by the time the identifiers are checked. *)
Lemma ddl_opens_before_validating :
  ~ (is_valid_identifier "bad-name" = false ->
     forall opened,
       EvConnect opened
       ∉ request_trace world_ok (ReadResource "rs:///bad-name/orders/ddl")).
Proof.
  intros H. apply (H eq_refl true). vm_compute. apply list_elem_of_here.
Qed.

(** A path of an undeclared shape whose first segment is not [schemas]
    produces no text: with the warehouse up, the read returns [None]. *)
Lemma undeclared_shape_falls_through (w : World) (uri_str p0 : string)
    (rest : list string) :
  PyStr.startswith uri_str rs_scheme = true ->
  PyStr.split "/" (PyStr.slice_from 6 uri_str) = p0 :: rest ->
  p0 <> "schemas" -> declared_shape (p0 :: rest) = false ->
  connection_opens w -> drv_set_autocommit w = None -> drv_close w = None ->
  read_resource w uri_str start
  = (Ret SNone,
     {| trace := [EvConnect true; EvAutocommit; EvClose];
        conn := Some Conn |}).
Proof.
  intros Hpre Hsplit Hp0 Hshape Hopen Ha Hcl.
  rewrite read_resource_open by assumption.
  rewrite Hsplit. unfold try_except_finally.
  rewrite dispatch_undeclared by assumption.
  unfold connection_close, bind, emit, raise_if. cbn. rewrite Hcl.
  reflexivity.
Qed.

(** C4.  The first branch of the router looks at the first segment only: a
    URI whose path starts with the segment [schemas] is answered as
    [rs:///schemas] is, whatever segments follow, so a path of an undeclared
    shape such as [schemas/x] yields the schema listing. *)
Theorem schemas_routed_by_first_segment (w : World) (uri_str : string)
    (rest : list string) :
  PyStr.startswith uri_str rs_scheme = true ->
  PyStr.split "/" (PyStr.slice_from 6 uri_str) = "schemas" :: rest ->
  read_resource w uri_str start = read_resource w "rs:///schemas" start.
Proof.
  intros Hpre Hsplit. unfold read_resource. rewrite Hpre, Hsplit.
  reflexivity.
Qed.

Lemma schemas_routed_by_first_segment_witness :
  declared_shape (PyStr.split "/" (PyStr.slice_from 6 "rs:///schemas/x"))
  = false
  /\ fst (read_resource (world_catalog ["public"; "finance"])
            "rs:///schemas/x" start)
     = Ret (SStr ("finance" +:+ PyStr.nl +:+ "public")).
Proof.
  split; [reflexivity|].
  rewrite (schemas_routed_by_first_segment
             (world_catalog ["public"; "finance"]) "rs:///schemas/x" ["x"]);
    reflexivity.
Defined.

(** ** Result Serializer *)

Section Lines.

Variable sep : ascii.

Lemma contains_append (a b : string) :
  PyStr.contains sep (a +:+ b)
  = PyStr.contains sep a || PyStr.contains sep b.
Proof.
  induction a as [|d a IH]; [reflexivity|].
  change (Ascii.eqb d sep || PyStr.contains sep (a +:+ b)
          = (Ascii.eqb d sep || PyStr.contains sep a)
            || PyStr.contains sep b).
  now rewrite IH, orb_assoc.
Qed.

Lemma contains_join (glue : string) (parts : list string) :
  PyStr.contains sep glue = false ->
  Forall (fun p => PyStr.contains sep p = false) parts ->
  PyStr.contains sep (PyStr.join glue parts) = false.
Proof.
  intros Hglue Hparts. induction Hparts as [|p parts Hp Hparts IH].
  - reflexivity.
  - destruct parts as [|q parts]; [exact Hp|].
    change (PyStr.join glue (p :: q :: parts))
      with (p +:+ glue +:+ PyStr.join glue (q :: parts)).
    now rewrite !contains_append, Hp, Hglue, IH.
Qed.

Lemma split_append (a b : string) :
  PyStr.contains sep a = false ->
  PyStr.split sep (a +:+ String sep b) = a :: PyStr.split sep b.
Proof.
  induction a as [|d a IH]; intros Ha.
  - change ("" +:+ String sep b) with (String sep b).
    cbn [PyStr.split]. now rewrite Ascii.eqb_refl.
  - apply orb_false_iff in Ha as [Hd Ha].
    change (PyStr.split sep (String d a +:+ String sep b))
      with (if Ascii.eqb d sep
            then EmptyString :: PyStr.split sep (a +:+ String sep b)
            else match PyStr.split sep (a +:+ String sep b) with
                 | [] => [String d EmptyString]
                 | p :: ps => String d p :: ps
                 end).
    now rewrite Hd, IH.
Qed.

Lemma split_whole (a : string) :
  PyStr.contains sep a = false -> PyStr.split sep a = [a].
Proof.
  induction a as [|d a IH]; intros Ha; [reflexivity|].
  apply orb_false_iff in Ha as [Hd Ha].
  cbn [PyStr.split]. now rewrite Hd, IH.
Qed.

(** Splitting undoes joining, for parts free of the separator. *)
Lemma split_join (p : string) (parts : list string) :
  Forall (fun p => PyStr.contains sep p = false) (p :: parts) ->
  PyStr.split sep (PyStr.join (String sep EmptyString) (p :: parts))
  = p :: parts.
Proof.
  revert p. induction parts as [|q parts IH]; intros p Hall.
  - apply split_whole. now inversion Hall.
  - change (PyStr.join (String sep EmptyString) (p :: q :: parts))
      with (p +:+ String sep
              (PyStr.join (String sep EmptyString) (q :: parts))).
    inversion Hall as [|? ? Hp Hrest]; subst.
    rewrite split_append by exact Hp. now rewrite IH.
Qed.

End Lines.

Lemma string_append_empty (s : string) : s +:+ "" = s.
Proof.
  induction s as [|c s IH]; [reflexivity|].
  change (String c (s +:+ "") = String c s). now rewrite IH.
Qed.

(** Joining lines with line feeds writes a line feed before every line but
    the first and none after the last. *)
Lemma join_lines (first : string) (others : list string) :
  PyStr.join PyStr.nl (first :: others)
  = first +:+ fold_right (fun line rest => PyStr.nl +:+ line +:+ rest) ""
                others.
Proof.
  revert first. induction others as [|line others IH]; intros first.
  - cbn. now rewrite string_append_empty.
  - change (PyStr.join PyStr.nl (first :: line :: others))
      with (first +:+ PyStr.nl +:+ PyStr.join PyStr.nl (line :: others)).
    now rewrite IH.
Qed.

(** C5.  The serializer writes the comma-joined column names and then, for
    each row, a line feed and the comma-joined [str()] of the row's values:
    lines are separated, not terminated, and a null scalar is written
    [None].  Values are not escaped, so the text cut at line feeds is the
    header line followed by one line per row as long as no name and no field
    holds a line feed. *)
Theorem serialize_result_lines (columns : list string) (rows : list row) :
  serialize_result columns rows
  = PyStr.join "," columns
    +:+ fold_right
          (fun (r : row) rest =>
             PyStr.nl +:+ PyStr.join "," (map py_str r) +:+ rest)
          "" rows
  /\ (Forall (fun c => PyStr.contains PyStr.LF c = false) columns ->
      Forall (Forall (fun v => PyStr.contains PyStr.LF (py_str v) = false))
        rows ->
      PyStr.split PyStr.LF (serialize_result columns rows)
      = PyStr.join "," columns
        :: map (fun r : row => PyStr.join "," (map py_str r)) rows)
  /\ py_str SNone = "None"
  /\ serialize_result ["a"; "b"] [[SInt 1; SStr "x"]; [SInt 2; SNone]]
     = "a,b" +:+ PyStr.nl +:+ "1,x" +:+ PyStr.nl +:+ "2,None".
Proof.
  split; [|split; [|split; reflexivity]].
  - unfold serialize_result.
    change ([PyStr.join "," columns] ++ ?l)
      with (PyStr.join "," columns :: l).
    rewrite join_lines. f_equal.
    induction rows as [|r rows IH]; [reflexivity|].
    cbn [map fold_right]. now rewrite IH.
  - intros Hcols Hrows. unfold serialize_result.
    change ([PyStr.join "," columns] ++ ?l)
      with (PyStr.join "," columns :: l).
    apply split_join. constructor.
    + apply contains_join; [reflexivity | exact Hcols].
    + apply Forall_map. eapply Forall_impl; [exact Hrows|]. cbn.
      intros r Hr. apply contains_join; [reflexivity|].
      now apply Forall_map.
Qed.

Lemma serialize_result_lines_witness :
  PyStr.split PyStr.LF
    (serialize_result ["a"; "b"] [[SInt 1; SStr "x"]; [SInt 2; SNone]])
  = ["a,b"; "1,x"; "2,None"].
Proof.
  apply (proj1 (proj2 (serialize_result_lines ["a"; "b"]
                         [[SInt 1; SStr "x"]; [SInt 2; SNone]])));
    repeat constructor.
Defined.

(** The text of the specification's example, with an empty last field and a
    final line feed, is not what the serializer writes. *)
Lemma serialize_result_null_is_not_empty :
  serialize_result ["a"; "b"] [[SInt 1; SStr "x"]; [SInt 2; SNone]]
  <> "a,b" +:+ PyStr.nl +:+ "1,x" +:+ PyStr.nl +:+ "2," +:+ PyStr.nl.
Proof. vm_compute. discriminate. Qed.

(** ** Schema listing *)

Section SchemaListing.






End SchemaListing.






(** * Further properties *)

(** ** Computations without driver calls *)

Create HintDb silent.

Section Silent.

Lemma silent_ret {A} (a : A) : silent (ret a).
Proof. intros st. reflexivity. Qed.

Lemma silent_raise {A} (e : exn) : silent (@raise A e).
Proof. intros st. reflexivity. Qed.

Lemma silent_lift {A} (o : outcome A) : silent (lift o).
Proof. intros st. reflexivity. Qed.

Lemma silent_raise_if (o : option exn) : silent (raise_if o).
Proof. destruct o; intros st; reflexivity. Qed.

Lemma silent_load_local {A} (var : string) (v : option A) :
  silent (load_local var v).
Proof. destruct v; intros st; reflexivity. Qed.

Lemma silent_getitem {A} (l : list A) (i : nat) : silent (getitem l i).
Proof. unfold getitem. destruct (l !! i); intros st; reflexivity. Qed.

Lemma silent_bind {A B} (m : M A) (k : A -> M B) :
  silent m -> (forall a, silent (k a)) -> silent (bind m k).
Proof.
  intros Hm Hk st. unfold bind. specialize (Hm st).
  destruct (m st) as [[a|e] st1]; cbn in Hm; subst st1; [apply Hk|reflexivity].
Qed.

Lemma silent_mapM {A B} (f : A -> M B) (l : list A) :
  (forall a, silent (f a)) -> silent (mapM f l).
Proof.
  intros Hf. induction l as [|x l IH]; cbn [mapM].
  - apply silent_ret.
  - apply silent_bind; [apply Hf|]. intros y.
    apply silent_bind; [apply IH|]. intros ys. apply silent_ret.
Qed.

End Silent.

#[local] Hint Resolve silent_ret silent_raise silent_lift silent_raise_if
  silent_load_local silent_getitem silent_mapM : silent.

(** One step of a proof of [silent]. *)
Ltac silent_step :=
  match goal with
  | |- silent (bind _ _) => apply silent_bind; [|intros ?]
  | |- silent (if ?b then _ else _) => destruct b
  | |- silent (match ?x with _ => _ end) => destruct x
  | |- forall _, _ => intros ?
  | |- silent _ => solve [auto with silent]
  end.

Ltac solve_silent := repeat silent_step.

Lemma silent_first_column (rows : list row) : silent (first_column rows).
Proof. unfold first_column. solve_silent. Qed.

Lemma silent_join_scalars (sep : string) (items : list scalar) :
  silent (join_scalars sep items).
Proof. unfold join_scalars. solve_silent. Qed.

Lemma silent_len_and_item (l : list string) (n i : nat) (s : string) :
  silent (len_and_item l n i s).
Proof. unfold len_and_item. solve_silent. Qed.

Lemma silent_resolve_sql (name : string) (args : gmap string string) :
  silent (resolve_sql name args).
Proof. intros st. apply resolve_sql_frame. Qed.

#[local] Hint Resolve silent_first_column silent_join_scalars
  silent_len_and_item : silent.

(** ** The order of driver calls *)

Section Protocol.

Variable w : World.

Lemma run_app (p : phase) (evs1 evs2 : list event) :
  run w p (evs1 ++ evs2)
  = match run w p evs1 with
    | Some q => run w q evs2
    | None => None
    end.
Proof.
  revert p. induction evs1 as [|ev evs1 IH]; intros p; [reflexivity|].
  cbn [app run]. destruct (step w p ev); [apply IH|reflexivity].
Qed.

Lemma fetch_tail_silent {A} (m : M A) : silent m -> fetch_tail m.
Proof.
  intros H st. specialize (H st).
  destruct (m st) as [r st1]; cbn in *; subst st1. auto.
Qed.

Lemma fetch_tail_fetchall {A} (rs : ResultSet) (k : list row -> M A) :
  (forall rows, silent (k rows)) ->
  fetch_tail (rows <- cursor_fetchall rs ;; k rows).
Proof.
  intros Hk st. unfold cursor_fetchall, bind, emit, lift.
  destruct (rs_fetchall rs) as [rows|e]; [rewrite Hk|]; cbn; auto.
Qed.

Lemma fetch_tail_fetchone {A} (rs : ResultSet) (k : option row -> M A) :
  (forall r, silent (k r)) ->
  fetch_tail (r <- cursor_fetchone rs ;; k r).
Proof.
  intros Hk st. unfold cursor_fetchone, bind, emit, lift.
  destruct (rs_fetchone rs) as [r|e]; [rewrite Hk|]; cbn; auto.
Qed.

(** Inside the [with] block: one [execute], then at most one fetch, and a
    fetch only when the statement ran. *)
Lemma moves_statement {A} (cursor : Cursor) (sql : string)
    (params : list string) (k : ResultSet -> M A) :
  (forall rs, fetch_tail (k rs)) ->
  moves w InCursor after_statement
    (rs <- cursor_execute w cursor sql params ;; k rs).
Proof.
  intros Hk st. unfold cursor_execute, bind, emit, lift.
  destruct (drv_execute w sql params) as [rs|e] eqn:Hx.
  - match goal with |- context [k rs ?s] =>
      destruct (Hk rs s) as [Hc Ht]; destruct (k rs s) as [r st1] end.
    cbn in *. split; [exact Hc|].
    destruct Ht as [Ht | [Ht | Ht]]; rewrite Ht.
    + exists [EvExecute sql params], Executed. cbn. now rewrite Hx.
    + exists [EvExecute sql params; EvFetchall], Fetched.
      cbn. rewrite Hx. now rewrite <- app_assoc.
    + exists [EvExecute sql params; EvFetchone], Fetched.
      cbn. rewrite Hx. now rewrite <- app_assoc.
  - cbn. split; [reflexivity|].
    exists [EvExecute sql params], Rejected. cbn. now rewrite Hx.
Qed.

(** A [with] block: the cursor is created, the statement runs, the cursor
    is closed; nothing runs when [cursor()] raises. *)
Lemma moves_with_cursor {A} (c : Connection) (body : Cursor -> M A) :
  (forall cursor, moves w InCursor after_statement (body cursor)) ->
  moves w Ready closable (with_cursor w c body).
Proof.
  intros Hbody st.
  unfold with_cursor, try_finally, try_except_finally, connection_cursor,
    cursor_exit, bind, emit, raise, ret.
  destruct (drv_cursor w) as [e|] eqn:Hcur; cbn.
  - split; [reflexivity|]. exists [EvCursor], Failing. cbn. now rewrite Hcur.
  - match goal with |- context [body Cur ?s] =>
      destruct (Hbody Cur s) as [Hc (evs & q & Ht & Hrun & Hq)];
      destruct (body Cur s) as [r st1] end.
    cbn in *.
    assert (run w Ready (EvCursor :: evs ++ [EvCursorClose])
            = Some CursorClosed) as Hall.
    { cbn. rewrite Hcur, run_app, Hrun. destruct q; try discriminate;
        reflexivity. }
    destruct r as [a|e]; cbn; destruct (drv_cursor_close w); cbn;
      (split; [exact Hc|]);
      exists (EvCursor :: evs ++ [EvCursorClose]), CursorClosed;
      rewrite Ht, <- !app_assoc; auto.
Qed.

Lemma moves_silent {A} (p : phase) (ends : phase -> bool) (m : M A) :
  silent m -> ends p = true -> moves w p ends m.
Proof.
  intros Hm Hp st. specialize (Hm st).
  destruct (m st) as [r st1]; cbn in *; subst st1. split; [reflexivity|].
  exists [], p. rewrite app_nil_r.
  split; [reflexivity|]. split; [reflexivity | exact Hp].
Qed.

Lemma moves_bind_silent {A B} (p : phase) (ends : phase -> bool) (m : M A)
    (k : A -> M B) :
  silent m -> ends p = true -> (forall a, moves w p ends (k a)) ->
  moves w p ends (bind m k).
Proof.
  intros Hm Hp Hk st. unfold bind. specialize (Hm st).
  destruct (m st) as [[a|e] st1]; cbn in Hm; subst st1; [apply Hk|].
  cbn. split; [reflexivity|]. exists [], p. rewrite app_nil_r.
  split; [reflexivity|]. split; [reflexivity | exact Hp].
Qed.

End Protocol.

#[local] Hint Resolve fetch_tail_silent fetch_tail_fetchall
  fetch_tail_fetchone : silent.

(** One step of a proof that a helper is one cursor session at most. *)
Ltac session_step :=
  match goal with
  | |- moves _ Ready closable (with_cursor _ _ _) =>
      apply moves_with_cursor; intros ?
  | |- moves _ InCursor after_statement (bind (cursor_execute _ _ _ _) _) =>
      apply moves_statement; intros ?
  | |- moves _ Ready closable (bind _ _) =>
      apply moves_bind_silent; [solve_silent | reflexivity | intros ?]
  | |- moves _ _ _ (if ?b then _ else _) => destruct b
  | |- moves _ Ready closable _ =>
      apply moves_silent; [solve_silent | reflexivity]
  | |- fetch_tail (bind (cursor_fetchall _) _) =>
      apply fetch_tail_fetchall; intros ?; solve_silent
  | |- fetch_tail (bind (cursor_fetchone _) _) =>
      apply fetch_tail_fetchone; intros ?; solve_silent
  | |- fetch_tail (if ?b then _ else _) => destruct b
  | |- fetch_tail (match ?x with _ => _ end) => destruct x
  | |- fetch_tail _ => apply fetch_tail_silent; solve_silent
  end.

Section Sessions.

Variable w : World.

Lemma session_get_schemas c : moves w Ready closable (_get_schemas w c).
Proof. unfold _get_schemas. repeat session_step. Qed.

Lemma session_get_tables c schema :
  moves w Ready closable (_get_tables w c schema).
Proof. unfold _get_tables. repeat session_step. Qed.

Lemma session_get_table_ddl c schema table :
  moves w Ready closable (_get_table_ddl w c schema table).
Proof. unfold _get_table_ddl. repeat session_step. Qed.

Lemma session_get_table_statistic c schema table :
  moves w Ready closable (_get_table_statistic w c schema table).
Proof. unfold _get_table_statistic. repeat session_step. Qed.

Lemma session_dispatch_resource c path_parts :
  moves w Ready closable (dispatch_resource w c path_parts).
Proof.
  unfold dispatch_resource.
  repeat first [ apply session_get_schemas | apply session_get_tables
               | apply session_get_table_ddl
               | apply session_get_table_statistic | session_step ].
Qed.

Lemma session_run_statement c name loc :
  moves w Ready closable (run_statement w c name loc).
Proof. unfold run_statement. repeat session_step. Qed.

End Sessions.

Section ProtocolOfRequests.

Variable w : World.

Lemma closable_close (q : phase) :
  closable q = true -> step w q EvClose = Some Closed.
Proof. destruct q; try discriminate; reflexivity. Qed.

(** The shape shared by the two entry points, run from a fresh frame. *)
Lemma guarded_follows_protocol {A} (config : Config)
    (rest : Connection -> M A) (handler : exn -> M A) :
  (forall c, moves w Ready closable (rest c)) ->
  (forall e, silent (handler e)) ->
  follows_protocol w
    (trace (snd (try_except_finally
                   (c <- connect w config ;;
                    store_conn c ;;
                    set_autocommit w c ;;
                    rest c)
                   handler
                   (c <- load_conn ;; connection_close w c) start)))
  = true.
Proof.
  intros Hrest Hhandler.
  unfold try_except_finally, connect, store_conn, set_autocommit, load_conn,
    connection_close, bind, lift, emit.
  destruct (py_int w (cfg_port config)) as [p|e]; cbn.
  2: { match goal with |- context [handler ?e0 ?s0] =>
      let Hh := fresh "Hh" in
      pose proof (Hhandler e0 s0) as Hh;
      destruct (handler e0 s0) as [rh sth]; cbn in Hh; subst sth end. reflexivity. }
  destruct (drv_connect w (cfg_host config) p (cfg_user config)
              (cfg_password config) (cfg_database config)) as [e|]; cbn.
  { match goal with |- context [handler ?e0 ?s0] =>
      let Hh := fresh "Hh" in
      pose proof (Hhandler e0 s0) as Hh;
      destruct (handler e0 s0) as [rh sth]; cbn in Hh; subst sth end. reflexivity. }
  destruct (drv_set_autocommit w) as [e|] eqn:Ha; cbn.
  { match goal with |- context [handler ?e0 ?s0] =>
      let Hh := fresh "Hh" in
      pose proof (Hhandler e0 s0) as Hh;
      destruct (handler e0 s0) as [rh sth]; cbn in Hh; subst sth end. cbn.
    destruct (drv_close w); cbn; unfold follows_protocol; cbn;
      now rewrite Ha. }
  match goal with |- context [rest Conn ?s] =>
    destruct (Hrest Conn s) as [Hc (evs & q & Ht & Hrun & Hq)];
    destruct (rest Conn s) as [r st1] end.
  destruct st1 as [tr1 c1]. cbn in Hc, Ht. subst c1 tr1.
  assert (follows_protocol w
            ([EvConnect true; EvAutocommit] ++ evs ++ [EvClose]) = true)
    as Hall.
  { unfold follows_protocol. cbn [app run step]. rewrite Ha.
    rewrite run_app, Hrun. cbn. now rewrite closable_close. }
  destruct r as [a|e]; cbn.
  - destruct (drv_close w); cbn; rewrite <- ?app_assoc; exact Hall.
  - match goal with |- context [handler ?e0 ?s0] =>
      let Hh := fresh "Hh" in
      pose proof (Hhandler e0 s0) as Hh;
      destruct (handler e0 s0) as [rh sth]; cbn in Hh; subst sth end. cbn.
    destruct (drv_close w); cbn; rewrite <- ?app_assoc; exact Hall.
Qed.

(** Every request, whatever the driver answers, makes its driver calls in
    the order that the automaton accepts. *)
Lemma protocol_of_request (r : request) :
  follows_protocol w (request_trace w r) = true.
Proof.
  destruct r as [uri_str | name args]; cbn [request_trace].
  - unfold read_resource.
    destruct (negb (PyStr.startswith uri_str rs_scheme)); [reflexivity|].
    apply guarded_follows_protocol.
    + intros c. apply session_dispatch_resource.
    + intros e st. reflexivity.
  - change (call_tool w name args start)
      with (match resolve_sql name args start with
            | (Ret loc, st') =>
                try_except_finally
                  (c <- connect w (get_redshift_config w) ;;
                   store_conn c ;;
                   set_autocommit w c ;;
                   run_statement w c name loc)
                  (fun e => ret (text_content
                                   ("Error executing query: " +:+ exn_str e)))
                  (c <- load_conn ;; connection_close w c) st'
            | (Raise e, st') => (Raise e, st')
            end).
    pose proof (resolve_sql_frame name args start) as Hst.
    destruct (resolve_sql name args start) as [[loc|e] st].
    + cbn in Hst. subst st. apply guarded_follows_protocol.
      * intros c. apply session_run_statement.
      * intros e st. reflexivity.
    + cbn in Hst. subst st. reflexivity.
Qed.

(** *** What the automaton implies *)

Lemma step_counts (p q : phase) (ev : event) :
  step w p ev = Some q ->
  opened_flag q = opens [ev] + opened_flag p
  /\ closed_flag q = closes [ev] + closed_flag p
  /\ executes [ev] + statements_left q <= statements_left p.
Proof.
  unfold opens, closes, executes.
  destruct p, ev as [[]| | | | | | |]; cbn; intros H; try discriminate;
    injection H as <-;
    repeat match goal with
           | |- context [match ?x with _ => _ end] => destruct x
           end; cbn; repeat split; try lia; congruence.
Qed.

Lemma run_counts (p q : phase) (evs : list event) :
  run w p evs = Some q ->
  opened_flag q = opens evs + opened_flag p
  /\ closed_flag q = closes evs + closed_flag p
  /\ executes evs + statements_left q <= statements_left p.
Proof.
  revert p. induction evs as [|ev evs IH]; intros p H.
  - injection H as ->. cbn. auto.
  - cbn [run] in H. destruct (step w p ev) as [p'|] eqn:Hs; [|discriminate].
    apply IH in H as (Ho & Hc & Hx).
    apply step_counts in Hs as (Ho1 & Hc1 & Hx1).
    change (ev :: evs) with ([ev] ++ evs).
    unfold opens, closes, executes in *.
    rewrite !count_occ_app, List.filter_app, List.length_app. lia.
Qed.

Lemma run_statement_facts (p q : phase) (evs : list event) :
  run w p evs = Some q -> phase_facts w p ->
  Exists (fun ev => is_execute ev = true) evs ->
  drv_set_autocommit w = None /\ drv_cursor w = None.
Proof.
  revert p. induction evs as [|ev evs IH]; intros p H Hp Hex.
  - inversion Hex.
  - cbn [run] in H. destruct (step w p ev) as [p'|] eqn:Hs; [|discriminate].
    inversion Hex as [? ? Hev | ? ? Hevs]; subst.
    + destruct ev; try discriminate. destruct p; try discriminate. exact Hp.
    + apply (IH p' H); [|exact Hevs].
      destruct p, ev as [[]| | | | | | |]; try discriminate;
        cbn in Hs; cbn in Hp;
        try (injection Hs as <-); cbn; auto;
        try (destruct (drv_set_autocommit w) eqn:?; cbn; auto; fail);
        try (destruct (drv_cursor w) eqn:?; cbn; auto; fail);
        try (destruct (drv_execute w sql params); cbn; auto; fail);
        tauto.
Qed.

End ProtocolOfRequests.

(** X1.  Whatever the driver answers, the driver calls of a request come in
    the order connect, set autocommit, create a cursor, execute one
    statement, fetch at most once and only after the statement ran, close
    the cursor, close the connection; after a failure only the closing calls
    follow. *)
Theorem every_request_follows_the_protocol (w : World) (r : request) :
  follows_protocol w (request_trace w r) = true.
Proof. apply protocol_of_request. Qed.

(** X2.  A request opens at most one connection, and [conn.close()] is
    called as many times as a connection was opened: never without one. *)
Theorem connection_calls_are_balanced (w : World) (r : request) :
  closes (request_trace w r) = opens (request_trace w r)
  /\ opens (request_trace w r) <= 1.
Proof.
  pose proof (protocol_of_request w r) as H. unfold follows_protocol in H.
  destruct (run w Idle (request_trace w r)) as [q|] eqn:Hrun; [|discriminate].
  apply run_counts in Hrun as (Ho & Hc & _).
  destruct q; try discriminate; cbn in Ho, Hc; lia.
Qed.

(** X3.  A request sends at most one statement to the warehouse. *)
Theorem at_most_one_statement (w : World) (r : request) :
  executes (request_trace w r) <= 1.
Proof.
  pose proof (protocol_of_request w r) as H. unfold follows_protocol in H.
  destruct (run w Idle (request_trace w r)) as [q|] eqn:Hrun; [|discriminate].
  apply run_counts in Hrun as (_ & _ & Hx). cbn in Hx. lia.
Qed.

Lemma executes_Exists (evs : list event) :
  executes evs <> 0 -> Exists (fun ev => is_execute ev = true) evs.
Proof.
  induction evs as [|ev evs IH]; [easy|].
  unfold executes. cbn [List.filter].
  destruct (is_execute ev) eqn:Hev; [now left|]. intros H. right. now apply IH.
Qed.

(** X4.  When setting autocommit or creating the cursor raises, the request
    sends no statement. *)
Theorem no_statement_without_autocommit (w : World) (r : request) :
  drv_set_autocommit w <> None \/ drv_cursor w <> None ->
  executes (request_trace w r) = 0.
Proof.
  intros Hfail.
  destruct (Nat.eq_dec (executes (request_trace w r)) 0) as [|Hne]; [easy|].
  apply executes_Exists in Hne.
  pose proof (protocol_of_request w r) as H. unfold follows_protocol in H.
  destruct (run w Idle (request_trace w r)) as [q|] eqn:Hrun; [|discriminate].
  destruct (run_statement_facts w Idle q _ Hrun I Hne) as [Ha Hc].
  destruct Hfail; contradiction.
Qed.

Lemma no_statement_without_autocommit_witness :
  executes (request_trace world_autocommit_fails
              (CallTool "execute_sql" {[ "sql" := "select 1" ]})) = 0.
Proof.
  apply (no_statement_without_autocommit world_autocommit_fails
           (CallTool "execute_sql" {[ "sql" := "select 1" ]})).
  left. discriminate.
Defined.

(** ** Resource reads, end to end *)

(** X5.  A URI that does not start with [rs://] is refused with the
    [ValueError] of line 86 before any driver call. *)
Theorem read_resource_rejects_other_schemes (w : World) (uri_str : string) :
  PyStr.startswith uri_str rs_scheme = false ->
  read_resource w uri_str start
  = (Raise (ValueError ("Invalid URI schema: " +:+ uri_str)),
     {| trace := []; conn := None |}).
Proof. intros H. unfold read_resource. now rewrite H. Qed.

Lemma read_resource_rejects_other_schemes_witness :
  read_resource world_ok "http://warehouse/schemas" start
  = (Raise (ValueError "Invalid URI schema: http://warehouse/schemas"),
     {| trace := []; conn := None |}).
Proof.
  apply (read_resource_rejects_other_schemes world_ok
           "http://warehouse/schemas").
  reflexivity.
Defined.

(** X6.  The prefix test looks at five characters and the path starts at
    the seventh: the sixth character is dropped unchecked, so [rs://] followed
    by any character and a path is read as [rs:///] followed by that path. *)
Theorem read_resource_ignores_sixth_character (w : World) (c : ascii)
    (path : string) :
  read_resource w ("rs://" +:+ String c path) start
  = read_resource w ("rs:///" +:+ path) start.
Proof. reflexivity. Qed.

(** X7.  When the connection cannot be opened, a resource read does not
    raise the [RuntimeError] of line 116: the [finally] clause reads the
    unbound local [conn] and [UnboundLocalError] is what the caller gets. *)
Theorem read_resource_raises_unbound_when_connect_fails (w : World)
    (uri_str : string) (e : exn) :
  PyStr.startswith uri_str rs_scheme = true ->
  connection_refused w e ->
  read_resource w uri_str start
  = (Raise (UnboundLocalError "conn"),
     {| trace := [EvConnect false]; conn := None |}).
Proof.
  intros Hpre (p & Hp & Hc). unfold read_resource. rewrite Hpre. cbn [negb].
  unfold try_except_finally, connect, load_conn, bind, lift, emit, raise.
  rewrite Hp. cbv beta iota. rewrite Hc. reflexivity.
Qed.

Lemma read_resource_raises_unbound_when_connect_fails_witness :
  read_resource world_unreachable "rs:///schemas" start
  = (Raise (UnboundLocalError "conn"),
     {| trace := [EvConnect false]; conn := None |}).
Proof.
  apply (read_resource_raises_unbound_when_connect_fails world_unreachable
           "rs:///schemas" (DriverError "connection refused")).
  - reflexivity.
  - exists 5439%Z. split; reflexivity.
Defined.

(** X8.  Once the connection is open, and as long as [close] returns, a
    resource read returns what the body of its [try] block returns, and when
    that body raises an exception [e] (from setting autocommit or from the
    dispatched helper) it raises a [RuntimeError] whose message is
    [Redshift Error: ] followed by [str(e)]. *)
Theorem read_resource_wraps_errors (w : World) (uri_str : string) :
  PyStr.startswith uri_str rs_scheme = true ->
  connection_opens w -> drv_close w = None ->
  fst (read_resource w uri_str start)
  = match
      fst ((set_autocommit w Conn ;;
            dispatch_resource w Conn
              (PyStr.split "/" (PyStr.slice_from 6 uri_str)))
             {| trace := [EvConnect true]; conn := Some Conn |})
    with
    | Ret v => Ret v
    | Raise e => Raise (RuntimeError ("Redshift Error: " +:+ exn_str e))
    end
  /\ (forall e,
        drv_set_autocommit w = Some e ->
        fst (read_resource w uri_str start)
        = Raise (RuntimeError ("Redshift Error: " +:+ exn_str e))).
Proof.
  intros Hpre (p & Hp & Hc) Hcl.
  assert (fst (read_resource w uri_str start)
          = match
              fst ((set_autocommit w Conn ;;
                    dispatch_resource w Conn
                      (PyStr.split "/" (PyStr.slice_from 6 uri_str)))
                     {| trace := [EvConnect true]; conn := Some Conn |})
            with
            | Ret v => Ret v
            | Raise e => Raise (RuntimeError ("Redshift Error: " +:+ exn_str e))
            end) as Hbody.
  { unfold read_resource. rewrite Hpre. cbn [negb].
    unfold try_except_finally, connect, store_conn, set_autocommit,
      load_conn, connection_close, bind, lift, emit, raise.
    rewrite Hp. cbv beta iota. rewrite Hc. cbn -[dispatch_resource].
    destruct (drv_set_autocommit w) as [e|]; cbn -[dispatch_resource].
    { now rewrite Hcl. }
    match goal with |- context [dispatch_resource w Conn ?parts ?s] =>
      pose proof (quiet_dispatch_resource w Conn parts s) as [Hq _];
      destruct (dispatch_resource w Conn parts s) as [[v|e] [tr1 c1]] end;
      cbn in Hq; subst c1; cbn; now rewrite Hcl. }
  split; [exact Hbody|].
  intros e He. rewrite Hbody.
  unfold set_autocommit, bind, emit, raise_if. cbn. now rewrite He.
Qed.

Lemma read_resource_wraps_errors_witness :
  fst (read_resource world_rejecting "rs:///sales/tables" start)
  = Raise (RuntimeError "Redshift Error: syntax error").
Proof.
  rewrite (proj1 (read_resource_wraps_errors world_rejecting
                    "rs:///sales/tables" eq_refl
                    (ex_intro _ 5439%Z (conj eq_refl eq_refl)) eq_refl)).
  reflexivity.
Defined.

(** ** What the validator lets through *)

Section ValidatorCharacters.

Lemma ident_start_is_ident_char (c : ascii) :
  ident_start c = true -> ident_char c = true.
Proof.
  unfold ident_start, ident_char. rewrite !orb_true_iff. tauto.
Qed.

Lemma all_ident_chars_contains (c : ascii) (s : string) :
  all_ident_chars s = true -> PyStr.contains c s = true ->
  ident_char c = true.
Proof.
  induction s as [|d s IH]; cbn [all_ident_chars PyStr.contains];
    [discriminate|].
  rewrite andb_true_iff, orb_true_iff. intros [Hd Hs] [Heq | Hin].
  - apply Ascii.eqb_eq in Heq. now subst.
  - now apply IH.
Qed.

Lemma bare_identifier_contains (c : ascii) (s : string) :
  bare_identifier s = true -> PyStr.contains c s = true ->
  ident_char c = true.
Proof.
  destruct s as [|d s]; [discriminate|].
  cbn [bare_identifier]. rewrite andb_true_iff. intros [Hd Hs].
  apply (all_ident_chars_contains c (String d s)).
  cbn [all_ident_chars]. now rewrite (ident_start_is_ident_char d Hd).
Qed.

(** The characters of an accepted name. *)
Lemma valid_identifier_contains (name : string) (c : ascii) :
  is_valid_identifier name = true -> PyStr.contains c name = true ->
  ident_char c = true \/ c = PyStr.LF.
Proof.
  intros Hvalid Hin.
  apply is_valid_identifier_spec in Hvalid as [Hbare | (s0 & -> & Hbare)].
  - left. now apply (bare_identifier_contains c name).
  - rewrite contains_append in Hin. apply orb_true_iff in Hin as [Hin | Hin].
    + left. now apply (bare_identifier_contains c s0).
    + right. cbn in Hin. rewrite orb_false_r in Hin.
      apply Ascii.eqb_eq in Hin. now subst.
Qed.

Lemma valid_identifier_rejects (name : string) (c : ascii) :
  is_valid_identifier name = true ->
  ident_char c = false -> c <> PyStr.LF ->
  PyStr.contains c name = false.
Proof.
  intros Hvalid Hc Hlf. destruct (PyStr.contains c name) eqn:Hin; [|easy].
  destruct (valid_identifier_contains name c Hvalid Hin); congruence.
Qed.

End ValidatorCharacters.

(** X9.  A name that the validator accepts is not empty, starts with a
    letter or an underscore, and holds nothing but letters, digits and
    underscores, apart from a line feed: no space, quote, semicolon, dot or
    slash reaches the SQL text through it. *)
Theorem valid_identifier_characters (name : string) :
  is_valid_identifier name = true ->
  (exists c0 rest, name = String c0 rest /\ ident_start c0 = true)
  /\ (forall c, PyStr.contains c name = true ->
                ident_char c = true \/ c = PyStr.LF).
Proof.
  intros Hvalid. split.
  - destruct name as [|c0 rest]; [discriminate|].
    rewrite is_valid_identifier_unfold in Hvalid.
    apply andb_true_iff in Hvalid as [Hc0 _]. now exists c0, rest.
  - intros c. now apply valid_identifier_contains.
Qed.

Lemma valid_identifier_characters_witness :
  (exists c0 rest, "orders_2024" = String c0 rest /\ ident_start c0 = true)
  /\ (forall c, PyStr.contains c "orders_2024" = true ->
                ident_char c = true \/ c = PyStr.LF).
Proof.
  apply (valid_identifier_characters "orders_2024"). reflexivity.
Defined.

(** ** The routes of the templates *)

Section Routes.


Lemma path_of_three (a b c : string) :
  PyStr.contains "/" a = false -> PyStr.contains "/" b = false ->
  PyStr.contains "/" c = false ->
  PyStr.split "/"
    (PyStr.slice_from 6 ("rs:///" +:+ a +:+ "/" +:+ b +:+ "/" +:+ c))
  = [a; b; c].
Proof.
  intros Ha Hb Hc.
  change (PyStr.slice_from 6 ("rs:///" +:+ a +:+ "/" +:+ b +:+ "/" +:+ c))
    with (a +:+ String "/" (b +:+ String "/" c)).
  now rewrite !split_append, split_whole.
Qed.

Lemma valid_identifier_no_slash (name : string) :
  is_valid_identifier name = true -> PyStr.contains "/" name = false.
Proof. intros H. now apply valid_identifier_rejects. Qed.

Variable w : World.


Lemma dispatch_ddl (c : Connection) (schema table : string) :
  schema <> "schemas" ->
  dispatch_resource w c [schema; table; "ddl"]
  = _get_table_ddl w c schema table.
Proof.
  intros H. apply String.eqb_neq in H.
  unfold dispatch_resource, len_and_item, getitem, bind, ret.
  cbn [lookup list_lookup length Nat.eqb]. now rewrite H.
Qed.

Lemma dispatch_statistic (c : Connection) (schema table : string) :
  schema <> "schemas" ->
  dispatch_resource w c [schema; table; "statistic"]
  = _get_table_statistic w c schema table.
Proof.
  intros H. apply String.eqb_neq in H.
  unfold dispatch_resource, len_and_item, getitem, bind, ret.
  cbn [lookup list_lookup length Nat.eqb]. now rewrite H.
Qed.


End Routes.



(** X11.  For a schema other than [schemas], names that the validator
    accepts and a warehouse that is up (the connection opens, the session
    calls succeed, the statement and [fetchone] return), a DDL read sends
    [show table schema.table] and fetches one row; the answer is the first
    field of that row when there is one and it is truthy, and the text
    [No DDL found for schema.table] otherwise, so it is never empty. *)
Theorem ddl_read_returns_first_field_or_notice (w : World)
    (schema table : string) (rs : ResultSet) (ddl : option row) :
  is_valid_identifier schema = true -> is_valid_identifier table = true ->
  schema <> "schemas" ->
  connection_opens w -> session_ok w ->
  drv_execute w ("show table " +:+ schema +:+ "." +:+ table) [] = Ret rs ->
  rs_fetchone rs = Ret ddl ->
  exists v,
    read_resource w ("rs:///" +:+ schema +:+ "/" +:+ table +:+ "/ddl") start
    = (Ret v,
       {| trace := [EvConnect true; EvAutocommit; EvCursor;
                    EvExecute ("show table " +:+ schema +:+ "." +:+ table) [];
                    EvFetchone; EvCursorClose; EvClose];
          conn := Some Conn |})
    /\ truthy v = true
    /\ v = match ddl with
           | Some (d0 :: _) =>
               if truthy d0 then d0
               else SStr ("No DDL found for " +:+ schema +:+ "." +:+ table)
           | _ => SStr ("No DDL found for " +:+ schema +:+ "." +:+ table)
           end.
Proof.
  intros Hs Ht Hschema Hopen (Ha & Hcur & Hcc & Hcl) Hx Hone.
  rewrite read_resource_open; [|reflexivity|assumption..].
  change ("rs:///" +:+ schema +:+ "/" +:+ table +:+ "/ddl")
    with ("rs:///" +:+ schema +:+ "/" +:+ table +:+ "/" +:+ "ddl").
  rewrite (path_of_three schema table "ddl")
    by (auto using valid_identifier_no_slash).
  rewrite dispatch_ddl by assumption.
  unfold try_except_finally, _get_table_ddl. rewrite Hs, Ht. cbn [negb orb].
  unfold with_cursor, try_finally, try_except_finally, connection_cursor,
    cursor_execute, cursor_fetchone, cursor_exit, connection_close.
  unfold bind at 1 2 3. cbn [emit]. rewrite Hcur. cbn [raise_if ret].
  unfold bind at 1 2. cbn [emit lift]. rewrite Hx.
  unfold bind at 1 2. cbn [emit lift]. rewrite Hone.
  destruct ddl as [[|d0 r]|]; [| destruct (truthy d0) eqn:Hd0 |];
    cbn [ret]; unfold bind, emit; cbn [trace conn app];
    rewrite Hcc; cbn [raise_if ret trace conn app]; rewrite Hcl;
    cbn [raise_if ret];
    eexists; (split; [reflexivity|]); split; auto.
Qed.

Lemma ddl_read_returns_first_field_or_notice_witness :
  exists v,
    read_resource (world_answering (fun _ _ => Ret (result_set ["ddl"] [])))
      "rs:///sales/orders/ddl" start
    = (Ret v,
       {| trace := [EvConnect true; EvAutocommit; EvCursor;
                    EvExecute "show table sales.orders" [];
                    EvFetchone; EvCursorClose; EvClose];
          conn := Some Conn |})
    /\ truthy v = true
    /\ v = SStr "No DDL found for sales.orders".
Proof.
  apply (ddl_read_returns_first_field_or_notice
           (world_answering (fun _ _ => Ret (result_set ["ddl"] [])))
           "sales" "orders" (result_set ["ddl"] []) None);
    try reflexivity; try discriminate.
  - exists 5439%Z. split; reflexivity.
  - repeat split.
Defined.

(** X12.  For a schema other than [schemas], names that the validator
    accepts and a warehouse that is up (the connection opens, the session
    calls succeed, the statement returns), a statistic read sends
    [ANALYZE schema.table;], fetches nothing, and answers with the fixed
    confirmation, whatever the cursor holds. *)
Theorem statistic_read_runs_analyze (w : World) (schema table : string)
    (rs : ResultSet) :
  is_valid_identifier schema = true -> is_valid_identifier table = true ->
  schema <> "schemas" ->
  connection_opens w -> session_ok w ->
  drv_execute w ("ANALYZE " +:+ schema +:+ "." +:+ table +:+ ";") [] = Ret rs ->
  read_resource w ("rs:///" +:+ schema +:+ "/" +:+ table +:+ "/statistic")
    start
  = (Ret (SStr ("ANALYZE " +:+ schema +:+ "." +:+ table
                +:+ " command executed")),
     {| trace := [EvConnect true; EvAutocommit; EvCursor;
                  EvExecute ("ANALYZE " +:+ schema +:+ "." +:+ table +:+ ";")
                    [];
                  EvCursorClose; EvClose];
        conn := Some Conn |}).
Proof.
  intros Hs Ht Hschema Hopen (Ha & Hcur & Hcc & Hcl) Hx.
  rewrite read_resource_open; [|reflexivity|assumption..].
  change ("rs:///" +:+ schema +:+ "/" +:+ table +:+ "/statistic")
    with ("rs:///" +:+ schema +:+ "/" +:+ table +:+ "/" +:+ "statistic").
  rewrite (path_of_three schema table "statistic")
    by (auto using valid_identifier_no_slash).
  rewrite dispatch_statistic by assumption.
  unfold try_except_finally, _get_table_statistic. rewrite Hs, Ht.
  cbn [negb orb].
  unfold with_cursor, try_finally, try_except_finally, connection_cursor,
    cursor_execute, cursor_exit, connection_close.
  unfold bind at 1 2 3. cbn [emit]. rewrite Hcur. cbn [raise_if ret].
  unfold bind at 1 2. cbn [emit lift]. rewrite Hx.
  unfold bind, emit. cbn [ret trace conn app]. rewrite Hcc.
  cbn [raise_if ret trace conn app]. now rewrite Hcl.
Qed.

Lemma statistic_read_runs_analyze_witness :
  read_resource world_ok "rs:///sales/orders/statistic" start
  = (Ret (SStr "ANALYZE sales.orders command executed"),
     {| trace := [EvConnect true; EvAutocommit; EvCursor;
                  EvExecute "ANALYZE sales.orders;" [];
                  EvCursorClose; EvClose];
        conn := Some Conn |}).
Proof.
  apply (statistic_read_runs_analyze world_ok "sales" "orders" no_result_set);
    try reflexivity; try discriminate.
  - exists 5439%Z. split; reflexivity.
  - repeat split.
Defined.

(** ** The statements that reach the warehouse *)

Section Keeps.

Context (I : list event -> Prop).

Lemma keeps_silent {A} (m : M A) : silent m -> keeps I m.
Proof. intros Hm st H. now rewrite Hm. Qed.

Lemma keeps_bind {A B} (m : M A) (k : A -> M B) :
  keeps I m -> (forall a, keeps I (k a)) -> keeps I (bind m k).
Proof.
  intros Hm Hk st H. unfold bind. specialize (Hm st H).
  destruct (m st) as [[a|e] st1]; cbn in Hm; [now apply Hk | exact Hm].
Qed.

Lemma keeps_emit (ev : event) :
  (forall tr, I tr -> I (tr ++ [ev])) -> keeps I (emit ev).
Proof. intros Hev st H. cbn. now apply Hev. Qed.

Lemma keeps_store_conn (c : Connection) : keeps I (store_conn c).
Proof. intros st H. exact H. Qed.

Lemma keeps_load_conn : keeps I load_conn.
Proof. intros st H. unfold load_conn. now destruct (conn st). Qed.

Lemma keeps_try_except_finally {A} (body : M A) (handler : exn -> M A)
    (final : M unit) :
  keeps I body -> (forall e, keeps I (handler e)) -> keeps I final ->
  keeps I (try_except_finally body handler final).
Proof.
  intros Hb Hh Hf st H. unfold try_except_finally. specialize (Hb st H).
  destruct (body st) as [[a|e] st1]; cbn in Hb.
  - specialize (Hf st1 Hb). now destruct (final st1) as [[u|e'] st2].
  - specialize (Hh e st1 Hb). destruct (handler e st1) as [r st2]; cbn in Hh.
    specialize (Hf st2 Hh). now destruct (final st2) as [[u|e'] st3].
Qed.

End Keeps.

Section SendsOnly.

Context (P : string -> list string -> Prop).

Lemma sends_only_nil : sends_only P [].
Proof. intros sql params H. now apply elem_of_nil in H. Qed.

Lemma sends_only_other (ev : event) (tr : list event) :
  is_execute ev = false -> sends_only P tr -> sends_only P (tr ++ [ev]).
Proof.
  intros Hev H sql params Hin. apply elem_of_app in Hin as [Hin | Hin].
  - now apply H.
  - apply list_elem_of_singleton in Hin. now subst.
Qed.

Lemma sends_only_execute (sql : string) (params : list string)
    (tr : list event) :
  P sql params -> sends_only P tr ->
  sends_only P (tr ++ [EvExecute sql params]).
Proof.
  intros HP H s p Hin. apply elem_of_app in Hin as [Hin | Hin].
  - now apply H.
  - apply list_elem_of_singleton in Hin. now injection Hin as -> ->.
Qed.

Variable w : World.

Lemma keeps_connect (config : Config) :
  keeps (sends_only P) (connect w config).
Proof.
  unfold connect. apply keeps_bind; [now apply keeps_silent, silent_lift|].
  intros p. destruct (drv_connect w _ p _ _ _);
    (apply keeps_bind;
     [apply keeps_emit; intros tr; now apply sends_only_other
     |intros _; apply keeps_silent; auto with silent]).
Qed.

Lemma keeps_set_autocommit (c : Connection) :
  keeps (sends_only P) (set_autocommit w c).
Proof.
  unfold set_autocommit. apply keeps_bind.
  - apply keeps_emit. intros tr. now apply sends_only_other.
  - intros _. apply keeps_silent. auto with silent.
Qed.

Lemma keeps_connection_close (c : Connection) :
  keeps (sends_only P) (connection_close w c).
Proof.
  unfold connection_close. apply keeps_bind.
  - apply keeps_emit. intros tr. now apply sends_only_other.
  - intros _. apply keeps_silent. auto with silent.
Qed.

(** A [with] block whose statement satisfies [P]. *)
Lemma keeps_with_cursor_statement {A} (c : Connection) (sql : string)
    (params : list string) (k : ResultSet -> M A) :
  P sql params -> (forall rs, fetch_tail (k rs)) ->
  keeps (sends_only P)
    (with_cursor w c (fun cursor =>
       rs <- cursor_execute w cursor sql params ;; k rs)).
Proof.
  intros HP Hk. unfold with_cursor, try_finally.
  apply keeps_bind.
  { unfold connection_cursor. apply keeps_bind.
    - apply keeps_emit. intros tr. now apply sends_only_other.
    - intros _. apply keeps_silent. solve_silent. }
  intros cursor. apply keeps_try_except_finally.
  - apply keeps_bind.
    + unfold cursor_execute. apply keeps_bind.
      * apply keeps_emit. intros tr. now apply sends_only_execute.
      * intros _. apply keeps_silent. auto with silent.
    + intros rs st H. destruct (Hk rs st) as [_ [-> | [-> | ->]]];
        [exact H | now apply sends_only_other..].
  - intros e. apply keeps_silent. auto with silent.
  - unfold cursor_exit. apply keeps_bind.
    + apply keeps_emit. intros tr. now apply sends_only_other.
    + intros _. apply keeps_silent. auto with silent.
Qed.

(** The shape shared by the two entry points. *)
Lemma guarded_sends_only {A} (config : Config) (rest : Connection -> M A)
    (handler : exn -> M A) :
  (forall c, keeps (sends_only P) (rest c)) ->
  (forall e, silent (handler e)) ->
  sends_only P
    (trace (snd (try_except_finally
                   (c <- connect w config ;;
                    store_conn c ;;
                    set_autocommit w c ;;
                    rest c)
                   handler
                   (c <- load_conn ;; connection_close w c) start))).
Proof.
  intros Hrest Hhandler.
  apply (keeps_try_except_finally (sends_only P)); [| | |apply sends_only_nil].
  - apply keeps_bind; [apply keeps_connect|]. intros c.
    apply keeps_bind; [apply keeps_store_conn|]. intros _.
    apply keeps_bind; [apply keeps_set_autocommit|]. intros _. apply Hrest.
  - intros e. now apply keeps_silent.
  - apply keeps_bind; [apply keeps_load_conn|]. intros c.
    apply keeps_connection_close.
Qed.

End SendsOnly.

(** X13.  On the DDL and statistic routes, whatever the driver answers, a
    statement reaches the warehouse only when the validator accepted both
    names, and it is then [show table schema.table] or
    [ANALYZE schema.table;], without parameters. *)
Theorem identifier_routes_send_validated_names (w : World)
    (uri_str schema table kind : string) :
  PyStr.split "/" (PyStr.slice_from 6 uri_str) = [schema; table; kind] ->
  kind = "ddl" \/ kind = "statistic" ->
  schema <> "schemas" ->
  sends_only
    (fun sql params =>
       is_valid_identifier schema = true /\ is_valid_identifier table = true
       /\ params = []
       /\ sql = if String.eqb kind "ddl"
                then "show table " +:+ schema +:+ "." +:+ table
                else "ANALYZE " +:+ schema +:+ "." +:+ table +:+ ";")
    (request_trace w (ReadResource uri_str)).
Proof.
  intros Hsplit Hkind Hschema. cbn [request_trace]. unfold read_resource.
  destruct (negb (PyStr.startswith uri_str rs_scheme));
    [apply sends_only_nil|].
  apply guarded_sends_only; [|intros e st; reflexivity].
  intros c. rewrite Hsplit.
  destruct Hkind as [-> | ->].
  - rewrite dispatch_ddl by assumption. unfold _get_table_ddl.
    destruct (is_valid_identifier schema), (is_valid_identifier table);
      cbn [negb orb]; try (apply keeps_silent, silent_raise).
    apply keeps_with_cursor_statement; [auto|].
    intros rs. repeat session_step.
  - rewrite dispatch_statistic by assumption. unfold _get_table_statistic.
    destruct (is_valid_identifier schema), (is_valid_identifier table);
      cbn [negb orb]; try (apply keeps_silent, silent_raise).
    apply keeps_with_cursor_statement; [auto|].
    intros rs. repeat session_step.
Qed.

Lemma identifier_routes_send_validated_names_witness :
  sends_only
    (fun sql params =>
       is_valid_identifier "sales" = true
       /\ is_valid_identifier "orders" = true
       /\ params = []
       /\ sql = "show table sales.orders")
    (request_trace world_ok (ReadResource "rs:///sales/orders/ddl")).
Proof.
  apply (identifier_routes_send_validated_names world_ok
           "rs:///sales/orders/ddl" "sales" "orders" "ddl").
  - reflexivity.
  - left. reflexivity.
  - discriminate.
Defined.

Lemma resolve_sql_statement (name : string) (args : gmap string string)
    (loc : ToolLocals) (st st' : Frame) :
  resolve_sql name args st = (Ret loc, st') ->
  tool_statement name args (l_sql loc).
Proof.
  unfold resolve_sql, tool_statement.
  destruct (String.eqb name "execute_sql") eqn:H1.
  { apply String.eqb_eq in H1.
    destruct (args !! "sql") as [sql|] eqn:Hsql; [|discriminate].
    destruct (String.eqb sql "") eqn:Hne; [discriminate|].
    apply String.eqb_neq in Hne. intros H. injection H as <- <-. cbn. auto. }
  destruct (String.eqb name "analyze_table") eqn:H2.
  { apply String.eqb_eq in H2.
    destruct (args !! "schema") as [schema|] eqn:Hs; [|discriminate].
    destruct (args !! "table") as [table|] eqn:Ht; [|discriminate].
    destruct (String.eqb schema "") eqn:Hs0; [discriminate|].
    destruct (String.eqb table "") eqn:Ht0; [discriminate|].
    apply String.eqb_neq in Hs0, Ht0. cbn [orb].
    intros H. injection H as <- <-. cbn. right. left. split; [easy|].
    exists schema, table. auto. }
  destruct (String.eqb name "get_execution_plan") eqn:H3.
  { apply String.eqb_eq in H3.
    destruct (args !! "sql") as [sql|] eqn:Hsql; [|discriminate].
    destruct (String.eqb sql "") eqn:Hne; [discriminate|].
    apply String.eqb_neq in Hne. intros H. injection H as <- <-. cbn.
    right. right. left. split; [easy|]. exists sql. auto. }
  apply String.eqb_neq in H1, H2, H3.
  intros H. injection H as <- <-. cbn. right. right. right. auto.
Qed.

(** X14.  Whatever the driver answers, the only statement that a tool call
    sends is the one its arguments give: the [sql] argument as it is for
    [execute_sql], [EXPLAIN ] followed by it for [get_execution_plan],
    [ANALYZE schema.table] for [analyze_table], the empty string for any
    other name; it is sent without parameters. *)
Theorem tool_calls_send_the_resolved_statement (w : World) (name : string)
    (args : gmap string string) :
  sends_only (fun sql params => params = [] /\ tool_statement name args sql)
    (request_trace w (CallTool name args)).
Proof.
  cbn [request_trace].
  change (call_tool w name args start)
    with (match resolve_sql name args start with
          | (Ret loc, st') =>
              try_except_finally
                (c <- connect w (get_redshift_config w) ;;
                 store_conn c ;;
                 set_autocommit w c ;;
                 run_statement w c name loc)
                (fun e => ret (text_content
                                 ("Error executing query: " +:+ exn_str e)))
                (c <- load_conn ;; connection_close w c) st'
          | (Raise e, st') => (Raise e, st')
          end).
  pose proof (resolve_sql_frame name args start) as Hst.
  destruct (resolve_sql name args start) as [[loc|e] st] eqn:Hloc;
    cbn in Hst; subst st; [|apply sends_only_nil].
  apply guarded_sends_only; [|intros e st; reflexivity].
  intros c. unfold run_statement. apply keeps_with_cursor_statement.
  - split; [reflexivity|]. eapply resolve_sql_statement, Hloc.
  - intros rs. repeat session_step.
Qed.

(** ** Tool calls, end to end *)

(** With the warehouse up, a tool call other than [analyze_table] renders
    what [execute] answered. *)
Lemma guarded_free_statement (w : World) (name sql : string) :
  name <> "analyze_table" ->
  connection_opens w -> session_ok w ->
  try_except_finally
    (c <- connect w (get_redshift_config w) ;;
     store_conn c ;;
     set_autocommit w c ;;
     run_statement w c name
       {| l_sql := sql; l_schema := None; l_table := None |})
    (fun e => ret (text_content ("Error executing query: " +:+ exn_str e)))
    (c <- load_conn ;; connection_close w c) start
  = (statement_answer sql (drv_execute w sql []),
     {| trace := statement_calls sql (drv_execute w sql []);
        conn := Some Conn |}).
Proof.
  intros Hname (p & Hp & Hc) (Ha & Hcur & Hcc & Hcl).
  apply String.eqb_neq in Hname.
  unfold_request. cbn [l_sql l_schema l_table].
  rewrite Hp, Hc. cbn. rewrite Ha. cbn. rewrite Hcur. cbn.
  unfold statement_answer, statement_calls.
  destruct (drv_execute w sql []) as [[d fa fo]|e]; cbn.
  - rewrite Hname. destruct d; cbn.
    + destruct fa; cbn; rewrite Hcc; cbn; rewrite Hcl; reflexivity.
    + rewrite Hcc. cbn. rewrite Hcl. reflexivity.
  - rewrite Hcc. cbn. rewrite Hcl. reflexivity.
Qed.

(** X15.  With the warehouse up, [execute_sql] sends its [sql] argument as
    it is and answers with one text item that tells what came back: the
    error text when the driver raised, the generic success text when the
    statement has no result set, the serialized rows otherwise. *)
Theorem execute_sql_runs_verbatim (w : World) (args : gmap string string)
    (sql : string) :
  args !! "sql" = Some sql -> sql <> "" ->
  connection_opens w -> session_ok w ->
  call_tool w "execute_sql" args start
  = (match drv_execute w sql [] with
     | Raise e =>
         Ret [ {| type := "text";
                  text := "Error executing query: " +:+ exn_str e |} ]
     | Ret rs =>
         match rs_description rs with
         | None =>
             Ret [ {| type := "text";
                      text := "Successfully execute sql " +:+ sql |} ]
         | Some columns =>
             match rs_fetchall rs with
             | Ret rows =>
                 Ret [ {| type := "text";
                          text := serialize_result columns rows |} ]
             | Raise e =>
                 Ret [ {| type := "text";
                          text := "Error executing query: " +:+ exn_str e |} ]
             end
         end
     end,
     {| trace :=
          [EvConnect true; EvAutocommit; EvCursor; EvExecute sql []]
          ++ match drv_execute w sql [] with
             | Ret {| rs_description := Some _ |} => [EvFetchall]
             | _ => []
             end
          ++ [EvCursorClose; EvClose];
        conn := Some Conn |}).
Proof.
  intros Hsql Hne Hopen Hok. apply String.eqb_neq in Hne.
  unfold call_tool, bind at 1. unfold resolve_sql.
  rewrite String.eqb_refl, Hsql, Hne.
  etransitivity;
    [apply guarded_free_statement; assumption || discriminate|].
  reflexivity.
Qed.

Lemma execute_sql_runs_verbatim_witness :
  call_tool
    (world_answering (fun _ _ =>
       Ret (result_set ["a"; "b"] [[SInt 1; SStr "x"]; [SInt 2; SNone]])))
    "execute_sql" {[ "sql" := "select a, b from t" ]} start
  = (Ret [ {| type := "text";
              text := "a,b" +:+ PyStr.nl +:+ "1,x" +:+ PyStr.nl +:+ "2,None" |} ],
     {| trace := [EvConnect true; EvAutocommit; EvCursor;
                  EvExecute "select a, b from t" []; EvFetchall;
                  EvCursorClose; EvClose];
        conn := Some Conn |}).
Proof.
  apply (execute_sql_runs_verbatim
           (world_answering (fun _ _ =>
              Ret (result_set ["a"; "b"]
                     [[SInt 1; SStr "x"]; [SInt 2; SNone]])))
           {[ "sql" := "select a, b from t" ]} "select a, b from t");
    try reflexivity; try discriminate.
  - exists 5439%Z. split; reflexivity.
  - repeat split.
Defined.

(** X16.  With the warehouse up, [get_execution_plan] sends [EXPLAIN ]
    followed by its [sql] argument and answers with one text item, rendered
    as for [execute_sql]; the success text names the statement with its
    [EXPLAIN ] prefix. *)
Theorem get_execution_plan_explains (w : World) (args : gmap string string)
    (sql : string) :
  args !! "sql" = Some sql -> sql <> "" ->
  connection_opens w -> session_ok w ->
  call_tool w "get_execution_plan" args start
  = (match drv_execute w ("EXPLAIN " +:+ sql) [] with
     | Raise e =>
         Ret [ {| type := "text";
                  text := "Error executing query: " +:+ exn_str e |} ]
     | Ret rs =>
         match rs_description rs with
         | None =>
             Ret [ {| type := "text";
                      text := "Successfully execute sql EXPLAIN " +:+ sql |} ]
         | Some columns =>
             match rs_fetchall rs with
             | Ret rows =>
                 Ret [ {| type := "text";
                          text := serialize_result columns rows |} ]
             | Raise e =>
                 Ret [ {| type := "text";
                          text := "Error executing query: " +:+ exn_str e |} ]
             end
         end
     end,
     {| trace :=
          [EvConnect true; EvAutocommit; EvCursor;
           EvExecute ("EXPLAIN " +:+ sql) []]
          ++ match drv_execute w ("EXPLAIN " +:+ sql) [] with
             | Ret {| rs_description := Some _ |} => [EvFetchall]
             | _ => []
             end
          ++ [EvCursorClose; EvClose];
        conn := Some Conn |}).
Proof.
  intros Hsql Hne Hopen Hok. apply String.eqb_neq in Hne.
  unfold call_tool, bind at 1. unfold resolve_sql.
  change (String.eqb "get_execution_plan" "execute_sql") with false.
  change (String.eqb "get_execution_plan" "analyze_table") with false.
  rewrite String.eqb_refl. cbv iota. rewrite Hsql, Hne.
  etransitivity;
    [apply guarded_free_statement; assumption || discriminate|].
  reflexivity.
Qed.

Lemma get_execution_plan_explains_witness :
  call_tool
    (world_answering (fun _ _ =>
       Ret (result_set ["QUERY PLAN"] [[SStr "XN Seq Scan on t"]])))
    "get_execution_plan" {[ "sql" := "select 1" ]} start
  = (Ret [ {| type := "text";
              text := "QUERY PLAN" +:+ PyStr.nl +:+ "XN Seq Scan on t" |} ],
     {| trace := [EvConnect true; EvAutocommit; EvCursor;
                  EvExecute "EXPLAIN select 1" []; EvFetchall;
                  EvCursorClose; EvClose];
        conn := Some Conn |}).
Proof.
  apply (get_execution_plan_explains
           (world_answering (fun _ _ =>
              Ret (result_set ["QUERY PLAN"] [[SStr "XN Seq Scan on t"]])))
           {[ "sql" := "select 1" ]} "select 1");
    try reflexivity; try discriminate.
  - exists 5439%Z. split; reflexivity.
  - repeat split.
Defined.

(** X17.  The tools that [list_tools] announces and the arguments their
    schemas require at top level; a call that lacks one of these, or gives
    it empty, is refused with a [ValueError] before any driver call.  The
    schema of [execute_sql] holds its [required] list inside [properties],
    so at top level it requires nothing. *)
Theorem listed_tools_require_their_arguments :
  map (fun t => (Mcp.name t, required_arguments (Mcp.inputSchema t)))
    list_tools
  = [("execute_sql", []); ("analyze_table", ["schema"; "table"]);
     ("get_execution_plan", ["sql"])]
  /\ forall (w : World) (t : Mcp.Tool) (key : string)
       (args : gmap string string),
       t ∈ list_tools ->
       key ∈ required_arguments (Mcp.inputSchema t) ->
       args !! key = None \/ args !! key = Some "" ->
       exists msg,
         call_tool w (Mcp.name t) args start
         = (Raise (ValueError msg), {| trace := []; conn := None |}).
Proof.
  split; [reflexivity|].
  intros w t key args Ht Hkey Harg.
  unfold list_tools in Ht.
  repeat (apply elem_of_cons in Ht as [-> | Ht]);
    [| | | now apply elem_of_nil in Ht];
    cbn in Hkey;
    repeat (apply elem_of_cons in Hkey as [-> | Hkey]);
    try (now apply elem_of_nil in Hkey);
    cbn [Mcp.name]; unfold call_tool, bind, resolve_sql.
  - change (String.eqb "analyze_table" "execute_sql") with false.
    rewrite String.eqb_refl. cbv iota.
    destruct Harg as [-> | ->].
    + eexists. reflexivity.
    + destruct (args !! "table"); eexists; reflexivity.
  - change (String.eqb "analyze_table" "execute_sql") with false.
    rewrite String.eqb_refl. cbv iota.
    destruct (args !! "schema") as [schema|]; [|eexists; reflexivity].
    destruct Harg as [-> | ->]; [eexists; reflexivity|].
    rewrite orb_true_r. eexists. reflexivity.
  - change (String.eqb "get_execution_plan" "execute_sql") with false.
    change (String.eqb "get_execution_plan" "analyze_table") with false.
    rewrite String.eqb_refl. cbv iota.
    destruct Harg as [-> | ->]; eexists; reflexivity.
Qed.

Lemma listed_tools_require_their_arguments_witness :
  exists msg,
    call_tool world_ok "analyze_table" {[ "schema" := "sales" ]} start
    = (Raise (ValueError msg), {| trace := []; conn := None |}).
Proof.
  apply (proj2 listed_tools_require_their_arguments world_ok
           {| Mcp.name := "analyze_table";
              Mcp.description :=
                "Analyze table to collect statistics information";
              Mcp.inputSchema :=
                JObj [("type", JStr "object");
                      ("properties",
                       JObj [("schema",
                              JObj [("type", JStr "string");
                                    ("description", JStr "Schema name")]);
                             ("table",
                              JObj [("type", JStr "string");
                                    ("description", JStr "Table name")])]);
                      ("required", JArr [JStr "schema"; JStr "table"])] |}
           "table" {[ "schema" := "sales" ]}).
  - unfold list_tools. apply list_elem_of_further, list_elem_of_here.
  - cbn. apply list_elem_of_further, list_elem_of_here.
  - left. reflexivity.
Defined.

(** ** Reading the serialized text back *)

Section RoundTrip.

Lemma plain_field_spec (s : string) :
  plain_field s = true ->
  PyStr.contains "," s = false /\ PyStr.contains PyStr.LF s = false.
Proof.
  unfold plain_field. rewrite andb_true_iff, !negb_true_iff. tauto.
Qed.

Lemma split_join_fields (fields : list string) :
  fields <> [] -> Forall (fun f => plain_field f = true) fields ->
  PyStr.split "," (PyStr.join "," fields) = fields
  /\ PyStr.contains PyStr.LF (PyStr.join "," fields) = false.
Proof.
  intros Hne Hall. split.
  - destruct fields as [|f fields]; [congruence|].
    apply (split_join "," f fields).
    eapply Forall_impl; [exact Hall|]. intros s Hs.
    now apply plain_field_spec in Hs.
  - apply contains_join; [reflexivity|].
    eapply Forall_impl; [exact Hall|]. intros s Hs.
    now apply plain_field_spec in Hs.
Qed.

End RoundTrip.

(** X18.  When there is at least one column, no row is empty and no column
    name or field holds a comma or a line feed, cutting the serialized text
    at line feeds and each line at commas gives back the column names and
    the [str()] of every field, row by row. *)
Theorem serialize_result_round_trip (columns : list string)
    (rows : list row) :
  columns <> [] -> Forall (fun r : row => r <> []) rows ->
  Forall (fun c => plain_field c = true) columns ->
  Forall (Forall (fun v => plain_field (py_str v) = true)) rows ->
  map (PyStr.split ",") (PyStr.split PyStr.LF (serialize_result columns rows))
  = columns :: map (map py_str) rows.
Proof.
  intros Hcols Hrows Hplain Hfields. unfold serialize_result.
  change ([PyStr.join "," columns] ++ ?l) with (PyStr.join "," columns :: l).
  assert (Forall (fun r : row =>
                    PyStr.split "," (PyStr.join "," (map py_str r))
                    = map py_str r
                    /\ PyStr.contains PyStr.LF (PyStr.join "," (map py_str r))
                       = false) rows) as Hlines.
  { rewrite Forall_forall in *. intros r Hr.
    apply split_join_fields.
    - specialize (Hrows r Hr). destruct r; [congruence|discriminate].
    - apply Forall_map. apply Forall_forall. intros v Hv.
      specialize (Hfields r Hr). rewrite Forall_forall in Hfields.
      now apply Hfields. }
  destruct (split_join_fields columns Hcols Hplain) as [Hsplit Hnolf].
  rewrite split_join.
  - cbn [map]. rewrite Hsplit. f_equal. rewrite map_map.
    apply map_ext_Forall. eapply Forall_impl; [exact Hlines|].
    now intros r [Hr _].
  - constructor; [exact Hnolf|]. apply Forall_map.
    eapply Forall_impl; [exact Hlines|]. now intros r [_ Hr].
Qed.

Lemma serialize_result_round_trip_witness :
  map (PyStr.split ",")
    (PyStr.split PyStr.LF
       (serialize_result ["a"; "b"] [[SInt 1; SStr "x"]; [SInt 2; SNone]]))
  = [["a"; "b"]; ["1"; "x"]; ["2"; "None"]].
Proof.
  apply (serialize_result_round_trip ["a"; "b"]
           [[SInt 1; SStr "x"]; [SInt 2; SNone]]);
    try discriminate; repeat constructor; discriminate.
Defined.

(** A field with a comma breaks the round trip: it reads back as two. *)
Example serialize_result_comma_is_not_escaped :
  map (PyStr.split ",")
    (PyStr.split PyStr.LF (serialize_result ["name"] [[SStr "Doe, Jane"]]))
  = [["name"]; ["Doe"; " Jane"]].
Proof. reflexivity. Qed.

(** ** Configuration *)

Section UnusedSchema.

Variables (w : World) (v : string).

Lemma config_with_rs_schema :
  connect (with_rs_schema w v) (get_redshift_config (with_rs_schema w v))
  = connect w (get_redshift_config w).
Proof.
  unfold connect, get_redshift_config, with_rs_schema.
  cbn [os_environ py_int drv_connect cfg_host cfg_port cfg_user cfg_password
         cfg_database].
  now rewrite !lookup_insert_ne by discriminate.
Qed.

End UnusedSchema.

(** X19.  The variable [RS_SCHEMA] is read into the configuration and never
    used: setting it to any value changes neither the outcome nor the driver
    calls of a resource read or of a tool call. *)
Theorem rs_schema_is_never_used (w : World) (v : string) :
  (forall uri_str st,
      read_resource (with_rs_schema w v) uri_str st
      = read_resource w uri_str st)
  /\ (forall name args st,
        call_tool (with_rs_schema w v) name args st
        = call_tool w name args st).
Proof.
  split.
  - intros uri_str st. unfold read_resource.
    now rewrite config_with_rs_schema.
  - intros name args st. unfold call_tool.
    now rewrite config_with_rs_schema.
Qed.

(** ** What escapes an entry point *)

Lemma resolve_sql_raises_value_error (name : string)
    (args : gmap string string) (e : exn) (st st' : Frame) :
  resolve_sql name args st = (Raise e, st') -> exists msg, e = ValueError msg.
Proof.
  unfold resolve_sql.
  repeat match goal with
         | |- context [if ?b then _ else _] => destruct b
         | |- context [match ?x with _ => _ end] => destruct x
         end; cbn; intros H; try discriminate; injection H as <- _; eauto.
Qed.

Lemma split_not_nil (sep : ascii) (s : string) : PyStr.split sep s <> [].
Proof.
  destruct s as [|c s]; cbn [PyStr.split]; [discriminate|].
  destruct (Ascii.eqb c sep); [discriminate|].
  destruct (PyStr.split sep s); discriminate.
Qed.

(** X20.  When the connection opens and [close] returns, a tool call
    either is refused by the argument checks, with a [ValueError] and no
    driver call, or returns a list of exactly one text item: no exception of
    the driver escapes. *)
Theorem tool_call_softens_errors_once_open (w : World) (name : string)
    (args : gmap string string) :
  connection_opens w -> drv_close w = None ->
  (exists msg,
      call_tool w name args start
      = (Raise (ValueError msg), {| trace := []; conn := None |}))
  \/ (exists t,
        fst (call_tool w name args start)
        = Ret [ {| type := "text"; text := t |} ]).
Proof.
  intros Hopen Hcl.
  pose proof (resolve_sql_frame name args start) as Hst.
  destruct (resolve_sql name args start) as [[loc|e] st] eqn:Hloc;
    cbn in Hst; subst st.
  - right. now apply call_tool_softens_after_open with (loc := loc).
  - left. destruct (resolve_sql_raises_value_error _ _ _ _ _ Hloc) as [msg ->].
    exists msg. unfold call_tool, bind. now rewrite Hloc.
Qed.

Lemma tool_call_softens_errors_once_open_witness :
  (exists msg,
      call_tool world_rejecting "get_execution_plan" {[ "sql" := "selec" ]}
        start
      = (Raise (ValueError msg), {| trace := []; conn := None |}))
  \/ (exists t,
        fst (call_tool world_rejecting "get_execution_plan"
               {[ "sql" := "selec" ]} start)
        = Ret [ {| type := "text"; text := t |} ]).
Proof.
  apply (tool_call_softens_errors_once_open world_rejecting
           "get_execution_plan" {[ "sql" := "selec" ]}).
  - exists 5439%Z. split; reflexivity.
  - reflexivity.
Defined.

(** X21.  A path that has none of the four declared shapes and does not
    start with the segment [schemas] is not refused: with the warehouse up,
    the read opens and closes a connection, sends nothing and returns
    [None]. *)
Theorem unrecognised_path_returns_none (w : World) (uri_str : string) :
  PyStr.startswith uri_str rs_scheme = true ->
  declared_shape (PyStr.split "/" (PyStr.slice_from 6 uri_str)) = false ->
  PyStr.split "/" (PyStr.slice_from 6 uri_str) !! 0 <> Some "schemas" ->
  connection_opens w -> drv_set_autocommit w = None -> drv_close w = None ->
  read_resource w uri_str start
  = (Ret SNone,
     {| trace := [EvConnect true; EvAutocommit; EvClose];
        conn := Some Conn |}).
Proof.
  intros Hpre Hshape Hfirst Hopen Ha Hcl.
  destruct (PyStr.split "/" (PyStr.slice_from 6 uri_str)) as [|p0 rest] eqn:Hs.
  { now apply split_not_nil in Hs. }
  apply (undeclared_shape_falls_through w uri_str p0 rest); try assumption.
  intros ->. now apply Hfirst.
Qed.

Lemma unrecognised_path_returns_none_witness :
  read_resource world_ok "rs:///sales/orders/ddl/extra" start
  = (Ret SNone,
     {| trace := [EvConnect true; EvAutocommit; EvClose];
        conn := Some Conn |}).
Proof.
  apply (unrecognised_path_returns_none world_ok
           "rs:///sales/orders/ddl/extra");
    try reflexivity; try discriminate.
  exists 5439%Z. split; reflexivity.
Defined.
